(** * node-librenms-weathermap: the SVG rendering core of [src/index.ts]

    A shallow embedding of the renderer ([render] and everything it calls)
    together with the properties its specification states (C1 to C10) and
    further properties read off the code (X1 to X15).

    JavaScript numbers are IEEE 754 binary64 values, so they are modelled by
    Rocq's primitive [float]; their arithmetic is the kernel's, and universal
    facts about it come from the library's specification in terms of
    [spec_float].  JavaScript strings are modelled by [string]; the small part
    of the language's library the renderer relies on ([Number::toString],
    [Number.prototype.toFixed], [Array.prototype.join], [Set], ...) is written
    out in [Module JS]. *)

From Stdlib Require Import ZArith Floats String Ascii List Lia Bool.
From Stdlib Require Import DecimalString Sorted.
From stdpp Require Import base gmap strings list.

Local Open Scope Z_scope.

(* ===================================================================== *)
(** * The parts of JavaScript the renderer uses *)
(* ===================================================================== *)

Module JS.

(** ** Strings *)

(** The double quote character.  Template text below is written with the
    apostrophe standing for it and passed through [q]; none of the source's
    templates contains an apostrophe of its own. *)
Definition dquote : ascii := "034"%char.

Fixpoint q (s : string) : string :=
  match s with
  | EmptyString => EmptyString
  | String c s' => String (if Ascii.eqb c "'" then dquote else c) (q s')
  end.

(** [Array.prototype.join] on an array of strings. *)
Fixpoint join (sep : string) (l : list string) : string :=
  match l with
  | [] => ""
  | [x] => x
  | x :: l' => x +:+ sep +:+ join sep l'
  end.

(** [s.replace(c, '')] for a one-character pattern: the first occurrence
    only is removed. *)
Fixpoint remove_first (c : ascii) (s : string) : string :=
  match s with
  | EmptyString => EmptyString
  | String a s' => if Ascii.eqb a c then s' else String a (remove_first c s')
  end.

(** [s.replace(c, t)] for a one-character pattern. *)
Fixpoint replace_first (c : ascii) (t : string) (s : string) : string :=
  match s with
  | EmptyString => EmptyString
  | String a s' => if Ascii.eqb a c then t +:+ s' else String a (replace_first c t s')
  end.

(** [s.replace(/\..+/, '')]: the text from the first dot that is followed by
    at least one character (other than a line terminator) up to the end of
    that line is removed. *)
Definition is_line_terminator (a : ascii) : bool :=
  Ascii.eqb a "010"%char || Ascii.eqb a "013"%char.

Fixpoint drop_line (s : string) : string :=
  match s with
  | EmptyString => EmptyString
  | String a s' => if is_line_terminator a then s else drop_line s'
  end.

Fixpoint strip_from_dot (s : string) : string :=
  match s with
  | EmptyString => EmptyString
  | String a s' =>
      if Ascii.eqb a "."
      then match s' with
           | EmptyString => s
           | String b _ =>
               if is_line_terminator b then String a (strip_from_dot s') else drop_line s'
           end
      else String a (strip_from_dot s')
  end.

(** [xmlescape] of the npm package [xml-escape]: the five characters that
    are special in XML are replaced by their entities. *)
Definition escape_char (a : ascii) : string :=
  if Ascii.eqb a "&" then "&amp;"
  else if Ascii.eqb a "<" then "&lt;"
  else if Ascii.eqb a ">" then "&gt;"
  else if Ascii.eqb a "'" then "&apos;"
  else if Ascii.eqb a dquote then "&quot;"
  else String a EmptyString.

Fixpoint xmlescape (s : string) : string :=
  match s with
  | EmptyString => EmptyString
  | String a s' => escape_char a +:+ xmlescape s'
  end.

(** [[... new Set(l)]]: a [Set] keeps the first occurrence of every value, in
    insertion order. *)
Definition Set_add (s : list string) (x : string) : list string :=
  if bool_decide (x ∈ s) then s else s ++ [x].

Definition Set_of (l : list string) : list string := fold_left Set_add l [].

(** ** Numbers *)

(** The decimal digits of a natural number. *)
Definition digits (n : Z) : string := NilEmpty.string_of_uint (N.to_uint (Z.to_N n)).

Fixpoint zeros (n : nat) : string :=
  match n with
  | O => ""
  | S n' => String "0" (zeros n')
  end.

(** The number that an integer denotes (rounded to the nearest double when it
    has more than 53 significant bits). *)
Definition of_Z (z : Z) : float := SF2Prim (binary_normalize prec emax z 0 false).

(** [ToBoolean] of a number. *)
Definition truthy (x : float) : bool := negb (is_zero x || is_nan x).

(** An exact positive rational [num / den] with the interval
    [lo / den, hi / den] of the reals that round to it; [closed] tells
    whether the end points belong to it (the mantissa is even). *)
Record interval := {
  num : Z; den : Z; lo : Z; hi : Z; closed : bool
}.

Definition interval_of (m : positive) (e : Z) : interval :=
  let below := if (Zpos m =? 2 ^ 52) && (SpecFloat.emin prec emax <? e) then 1 else 2 in
  let u := if 2 <=? e then 2 ^ (e - 2) else 1 in
  {| num := 4 * Zpos m * u;
     den := if 2 <=? e then 1 else 2 ^ (2 - e);
     lo := (4 * Zpos m - below) * u;
     hi := (4 * Zpos m + 2) * u;
     closed := Z.even (Zpos m) |}.

(** [a / d] compared with [s * 10 ^ p]. *)
Definition compare_dec (a d s p : Z) : comparison :=
  if 0 <=? p then a ?= s * 10 ^ p * d else a * 10 ^ (- p) ?= s * d.

Definition rounds_to (i : interval) (s p : Z) : bool :=
  match compare_dec (lo i) (den i) s p, compare_dec (hi i) (den i) s p with
  | Lt, Gt => true
  | Eq, Gt | Lt, Eq => closed i
  | _, _ => false
  end.

(** The least [n], searched upwards from [n0], with [num / den < 10 ^ n]. *)
Fixpoint magnitude (fuel : nat) (i : interval) (n0 : Z) : Z :=
  match fuel with
  | O => n0
  | S fuel' =>
      match compare_dec (num i) (den i) 1 n0 with
      | Lt => n0
      | _ => magnitude fuel' i (n0 + 1)
      end
  end.

Definition floor_scaled (i : interval) (p : Z) : Z :=
  if 0 <=? p then num i / (den i * 10 ^ p) else (num i * 10 ^ (- p)) / den i.

(** The decimal [s * 10 ^ (n - k)] with [k] digits that rounds to the number,
    if there is one: of the two candidates around it the closer one is taken,
    the even one on a tie. *)
Definition candidate (i : interval) (n k : Z) : option Z :=
  let p := n - k in
  let s := floor_scaled i p in
  match rounds_to i s p, rounds_to i (s + 1) p with
  | true, true =>
      match compare_dec (2 * num i) (den i) (2 * s + 1) p with
      | Lt => Some s
      | Gt => Some (s + 1)
      | Eq => Some (if Z.even s then s else s + 1)
      end
  | true, false => Some s
  | false, true => Some (s + 1)
  | false, false => None
  end.

(** The shortest decimal: [(s, k, n)] with [k] least. *)
Fixpoint shortest (fuel : nat) (i : interval) (n k : Z) : Z * Z * Z :=
  match fuel with
  | O => (0, k, n)
  | S fuel' =>
      match candidate i n k with
      | Some s => if s =? 10 ^ k then (1, 1, n + 1) else (s, k, n)
      | None => shortest fuel' i n (k + 1)
      end
  end.

Definition take (n : Z) (s : string) : string := String.substring 0 (Z.to_nat n) s.
Definition drop (n : Z) (s : string) : string :=
  String.substring (Z.to_nat n) (String.length s - Z.to_nat n) s.

(** [Number::toString] of a positive finite number [m * 2 ^ e]. *)
Definition positive_toString (m : positive) (e : Z) : string :=
  let i := interval_of m e in
  let guess := (Z.log2 (num i) - Z.log2 (den i) - 1) * 30103 / 100000 - 1 in
  let '(s, k, n) := shortest 17 i (magnitude 8 i guess) 1 in
  let d := digits s in
  if (k <=? n) && (n <=? 21) then d +:+ zeros (Z.to_nat (n - k))
  else if (0 <? n) && (n <=? 21) then take n d +:+ "." +:+ drop n d
  else if (-6 <? n) && (n <=? 0) then "0." +:+ zeros (Z.to_nat (- n)) +:+ d
  else
    let exponent := (if 0 <=? n - 1 then "+" else "-") +:+ digits (Z.abs (n - 1)) in
    if k =? 1 then d +:+ "e" +:+ exponent
    else take 1 d +:+ "." +:+ drop 1 d +:+ "e" +:+ exponent.

(** [Number::toString], which template literals and string concatenation
    apply to a number. *)
Definition toString (x : float) : string :=
  match Prim2SF x with
  | S754_nan => "NaN"
  | S754_zero _ => "0"
  | S754_infinity s => if s then "-Infinity" else "Infinity"
  | S754_finite s m e => (if s then "-" else "") +:+ positive_toString m e
  end.

(** [Number.prototype.toFixed]: the integer [n] for which [n / 10 ^ f] is
    closest to the number (the larger one on a tie) is written with [f] digits
    after the point.  Numbers that are not finite, or not below [1e21], are
    written by [toString]. *)
Definition nearest_scaled (m : positive) (e : Z) (f : nat) : Z :=
  let t := Zpos m * 10 ^ Z.of_nat f in
  if 0 <=? e then t * 2 ^ e else (2 * t + 2 ^ (- e)) / 2 ^ (1 - e).

Definition fixed_digits (n : Z) (f : nat) : string :=
  let m := digits n in
  match f with
  | O => m
  | _ =>
      let m := zeros (S f - String.length m) +:+ m in
      let k := String.length m in
      String.substring 0 (k - f) m +:+ "." +:+ String.substring (k - f) f m
  end.

Definition toFixed (x : float) (f : nat) : string :=
  if negb (is_finite x) || (1e21 <=? abs x)%float then toString x
  else
    match Prim2SF x with
    | S754_finite s m e => (if s then "-" else "") +:+ fixed_digits (nearest_scaled m e f) f
    | _ => fixed_digits 0 f
    end.

(** The shortest decimal of a positive finite number [m * 2 ^ e]:
    [(s, k, n)] for the digits [s], their number [k] and the position [n] of
    the point, as [Number::toString] determines them. *)
Definition shortest_decimal (m : positive) (e : Z) : Z * Z * Z :=
  let i := interval_of m e in
  let guess := (Z.log2 (num i) - Z.log2 (den i) - 1) * 30103 / 100000 - 1 in
  shortest 17 i (magnitude 8 i guess) 1.

(** [o[x]] for a number [x] looks up the property named [toString x].  In an
    object keyed by integers a name is the decimal spelling of an integer;
    [toString x] is one when [x] is a zero, or when its shortest decimal has
    no digit behind the point and [toString] writes it without an exponent:
    the digits [s] followed by [n - k] zeros, after the sign.  The key is
    the integer so spelled, which above 2^53 need not be the integer that
    the number holds. *)
Definition integer_key (x : float) : option Z :=
  match Prim2SF x with
  | S754_zero _ => Some 0
  | S754_finite s m e =>
      let '(d, k, n) := shortest_decimal m e in
      if (k <=? n) && (n <=? 21) then Some (cond_Zopp s (d * 10 ^ (n - k))) else None
  | _ => None
  end.

(** [Array.prototype.sort] with a comparator: a stable sort; [cmp a b > 0]
    moves [a] behind [b]. *)
Fixpoint sort_insert (cmp : float -> float -> float) (x : float) (l : list float) : list float :=
  match l with
  | [] => [x]
  | y :: l' => if (0 <? cmp y x)%float then x :: l else y :: sort_insert cmp x l'
  end.

Definition sort (cmp : float -> float -> float) (l : list float) : list float :=
  fold_left (fun acc x => sort_insert cmp x acc) l [].

End JS.


(* ===================================================================== *)
(** * Data model *)
(* ===================================================================== *)

(** [ColorDefinition = Record<number, string>], bps -> CSS color: an object
    whose property names are the decimal spellings of integer thresholds.  It
    is keyed here by the threshold itself. *)
Abbreviation ColorDefinition := (gmap Z string).

Definition DEFAULT_COLORS : ColorDefinition :=
  list_to_map
    [ (-1, "#cccccc"); (* inactive *)
      (0, "#000000");
      (1000000, "#0000ff");
      (10000000, "#00cccc");
      (25000000, "#00ff00");
      (50000000, "#cccc00");
      (75000000, "#ee7000");
      (100000000, "#ff0000") ].

(** The values of the type [ConnectionSpeed].  The type is not checked when
    the program runs: a connection read from a configuration file carries
    whatever string the file has. *)
Definition ConnectionSpeed : list string := ["10M"; "100M"; "1G"; "10G"; "40G"; "100G"].

Module SiteData.
Record t := {
  name : string;
  render_x : float;
  render_y : float;
  width : float;
  height : float;
  label_position : string
}.
End SiteData.

Module ConnectionData.
Record t := {
  from_x : float;
  from_y : float;
  to_x : float;
  to_y : float;
  speed : string;
  outboundTraffic : float; (* in bps, -1 if inactive *)
  inboundTraffic : float (* in bps, -1 if inactive *)
}.
End ConnectionData.

Module DeviceData.
Record t := {
  type : string;
  name : string;
  render_x : float;
  render_y : float;
  label_position : string
}.
End DeviceData.

Module RenderData.
Record t := {
  title : string;
  width : float;
  height : float;
  devices : list DeviceData.t;
  sites : list SiteData.t;
  connections : list ConnectionData.t;
  colors : ColorDefinition
}.
End RenderData.

(** The last statement of [fetchRenderData] that concerns the colors:
    [colors: config.colors || DEFAULT_COLORS].  An object is truthy, also an
    empty one. *)
Definition fetchRenderData_colors (config_colors : option ColorDefinition) : ColorDefinition :=
  match config_colors with
  | Some colors => colors
  | None => DEFAULT_COLORS
  end.

(* ===================================================================== *)
(** * Rendering *)
(* ===================================================================== *)

Import JS.
Local Open Scope float_scope.

Definition renderToSvg (title : string) (width height : float)
    (elements : list string) (defsElements : list string) : string :=
  let content := join "
" elements in
  let defsContent := join "
  " defsElements in
  q "<!-- Rendered with node-librenms-weathermap -->
<svg xmlns='http://www.w3.org/2000/svg' xmlns:xlink='http://www.w3.org/1999/xlink' viewBox='0 0 " +:+ toString width +:+ " " +:+ toString height +:+
  q "' font-family='sans-serif'>
<defs>
  <g id='router' transform='translate(-25, -25)'>
    <ellipse cx='25' cy='25' rx='25' ry='25' fill='#fafafa' stroke='none'/>
    <path d='M 38.08 40.38 L 31.77 34.19 L 29.2 36.81 L 27.24 27.37 L 36.75 29.12 L 34.2 31.72 L 40.51 37.9 Z M 23.92 28.37 L 17.74 34.68 L 20.36 37.25 L 10.92 39.21 L 12.67 29.71 L 15.26 32.25 L 21.45 25.95 Z M 12.02 9.57 L 18.33 15.76 L 20.89 13.14 L 22.86 22.58 L 13.35 20.83 L 15.9 18.24 L 9.59 12.05 Z M 25.91 21.51 L 32.1 15.2 L 29.48 12.63 L 38.92 10.67 L 37.17 20.17 L 34.58 17.62 L 28.39 23.94 Z M 25 0 C 11.2 0 0 11.2 0 25 C 0 38.8 11.2 50 25 50 C 38.8 50 50 38.8 50 25 C 50 11.2 38.8 0 25 0 Z M 25 0.63 C 38.46 0.63 49.37 11.54 49.37 25 C 49.37 38.46 38.46 49.37 25 49.37 C 11.54 49.37 0.63 38.46 0.63 25 C 0.63 11.54 11.54 0.63 25 0.63 Z' fill='#005073' stroke='none'/>
  </g>
  <g id='switch' transform='translate(-25, -25)'>
    <path d='M 3.07 0 C 1.38 0 0 1.37 0 3.05 L 0 46.95 C 0 48.63 1.38 50 3.07 50 L 46.93 50 C 48.62 50 50 48.63 50 46.95 L 50 3.05 C 50 1.37 48.62 0 46.93 0 Z' fill='#fafafa' stroke='none'/>
    <path d='M 23.38 40.52 L 23.38 36.53 L 12.78 36.53 L 12.78 33.39 L 3.75 38.71 L 12.78 43.96 L 12.78 40.52 Z M 28.32 21.46 L 28.32 17.48 L 17.73 17.48 L 17.73 14.33 L 8.7 19.66 L 17.73 24.9 L 17.73 21.46 Z M 22.38 31.06 L 22.38 27.08 L 32.98 27.08 L 32.98 23.93 L 42 29.26 L 32.98 34.51 L 32.98 31.06 Z M 26.96 12.32 L 26.96 8.34 L 37.55 8.34 L 37.55 5.2 L 46.58 10.52 L 37.55 15.77 L 37.55 12.32 Z M 3.07 0 C 1.38 0 0 1.37 0 3.05 L 0 46.95 C 0 48.63 1.38 50 3.07 50 L 46.93 50 C 48.62 50 50 48.63 50 46.95 L 50 3.05 C 50 1.37 48.62 0 46.93 0 Z M 3.07 1.38 L 46.93 1.38 C 47.88 1.38 48.62 2.11 48.62 3.05 L 48.62 46.95 C 48.62 47.89 47.88 48.62 46.93 48.62 L 3.07 48.62 C 2.12 48.62 1.38 47.89 1.38 46.95 L 1.38 3.05 C 1.38 2.11 2.12 1.38 3.07 1.38 Z' fill='#005073' stroke='none'/>
  </g>
  <g id='cloud' transform='translate(-64, -40)'>
    <path d='M 30 20 C 6 20 0 40 19.2 44 C 0 52.8 21.6 72 37.2 64 C 48 80 84 80 96 64 C 120 64 120 48 105 40 C 120 24 96 8 75 16 C 60 4 36 4 30 20 Z' fill='#ffffff' stroke='#000000' stroke-miterlimit='10'/>
  </g>
  <path id='arrow-marker' d='M 0 0 L 10 5 L 0 10 z'/>
  <marker id='arrow' viewBox='0 0 10 10' refX='8' refY='5' markerWidth='6' markerHeight='6' markerUnits='strokeWidth' orient='auto-start-reverse' fill='context-stroke'><use xlink:href='#arrow-marker'/></marker>
  " +:+ defsContent +:+ "
</defs>
<title>" +:+ xmlescape title +:+ "</title>
" +:+ content +:+ "
</svg>".

Definition getArrowMarkerId (color : string) : string :=
  "arrow-" +:+ remove_first "#" color.

Definition createArrowMarker (color : string) : string :=
  q "<marker id='" +:+ getArrowMarkerId color +:+
  q "' viewBox='0 0 10 10' refX='8' refY='5' markerWidth='6' markerHeight='6' markerUnits='strokeWidth' orient='auto-start-reverse' fill='" +:+
  color +:+ q "'><use xlink:href='#arrow-marker'/></marker>".

Definition renderBackground (width height : float) : string :=
  q "<rect x='0' y='0' width='" +:+ toString width +:+ q "' height='" +:+ toString height +:+
  q "' fill='#f2f2f2' stroke='none'/>".

Definition renderDiagramTitle (title : string) (fontSize : float) : string :=
  q "<text x='50%' y='" +:+ toString (fontSize * 2) +:+ q "' text-anchor='middle' font-size='" +:+
  toString fontSize +:+ q "'>" +:+ xmlescape title +:+ "</text>".

Definition formatTraffic (traffic : float) : string :=
  if traffic <? 0 then "Inactive"
  else if traffic <? 100000 then toFixed (traffic / 1000) 2 +:+ " kbps"
  else if traffic <? 100000000 then toFixed (traffic / 1000000) 2 +:+ " Mbps"
  else toFixed (traffic / 1000000000) 2 +:+ " Gbps".

Definition renderTraffic (x y traffic : float) (fontSize : float) : string :=
  let width := fontSize * 6 in
  let rect :=
    q "<rect x='" +:+ toString (x - width / 2) +:+ q "' y='" +:+ toString (y - fontSize * 0.75) +:+
    q "' width='" +:+ toString width +:+ q "' height='" +:+ toString (fontSize * 1.5) +:+
    q "' fill='#ffffff' stroke='#000000' stroke-miterlimit='10'/>" in
  let text :=
    q "<text x='" +:+ toString x +:+ q "' y='" +:+ toString (y + fontSize / 2) +:+
    q "' text-anchor='middle' font-size='" +:+ toString fontSize +:+
    q "' fill='#000000' stroke='none'>" +:+ xmlescape (formatTraffic traffic) +:+ "</text>" in
  rect +:+ "
" +:+ text.

Definition getStrokeWidth (speed : string) : float :=
  if String.eqb speed "10M" then 0.5
  else if String.eqb speed "100M" then 1
  else if String.eqb speed "1G" then 2
  else if String.eqb speed "10G" then 4
  else if String.eqb speed "40G" then 6
  else if String.eqb speed "100G" then 8
  else 0.

(** [Object.keys(colors).map((s) => parseInt(s))]: every key spells an
    integer, which [parseInt] reads back as a number.  The order of the keys
    plays no part, the list being sorted next. *)
Definition parsedKeys (colors : ColorDefinition) : list float :=
  map (fun kv => of_Z kv.1) (map_to_list colors).

(** [colors[x]] for [x] a number or [undefined]. *)
Definition lookupColor (colors : ColorDefinition) (x : option float) : option string :=
  match x with
  | Some x => match integer_key x with Some k => colors !! k | None => None end
  | None => None
  end.

Definition getStrokeColor (traffic : float) (colors : ColorDefinition) : string :=
  let sortedSpeeds := sort (fun a b => b - a) (parsedKeys colors) in
  let speed := List.find (fun s => s <=? traffic) sortedSpeeds in
  let key :=
    match speed with
    | Some s => if truthy s then Some s else last sortedSpeeds
    | None => last sortedSpeeds
    end in
  match lookupColor colors key with
  | Some color => if String.eqb color "" then "#000000" else color
  | None => "#000000"
  end.

(** The local constants of [renderConnection], one definition each, in the
    order of the source. *)
Module Link.
Section Locals.
Import ConnectionData.
Variable connection : ConnectionData.t.

Definition middleX := from_x connection + (to_x connection - from_x connection) / 2.
Definition middleY := from_y connection + (to_y connection - from_y connection) / 2.
Definition spanX := abs (to_x connection - from_x connection).
Definition spanY := abs (to_y connection - from_y connection).
(** [d ** 2] is taken as the product [d * d]. *)
Definition length :=
  sqrt ((to_x connection - from_x connection) * (to_x connection - from_x connection)
        + (to_y connection - from_y connection) * (to_y connection - from_y connection)).
Definition normalizedVectorX := (to_x connection - from_x connection) / length.
Definition normalizedVectorY := (to_y connection - from_y connection) / length.
Definition trafficTextWidth := 72.
Definition strokeWidth := getStrokeWidth (speed connection).

(** The condition of the [if] that moves the labels, and its [factor]. *)
Definition overlap : bool := (48 <? spanY) && (spanX <? 192).
Definition factor := (12 + strokeWidth * 6) / abs normalizedVectorY.

(** The four label coordinates are assigned once before the [if] and once
    more inside it. *)
Definition outboundTrafficLabelX :=
  if overlap then middleX - normalizedVectorX * factor
  else middleX - normalizedVectorX * (trafficTextWidth / 2 + 8 + strokeWidth * 6).
Definition outboundTrafficLabelY :=
  if overlap then middleY - normalizedVectorY * factor
  else middleY - normalizedVectorY * (trafficTextWidth / 2 + 8 + strokeWidth * 6).
Definition inboundTrafficLabelX :=
  if overlap then middleX + normalizedVectorX * factor
  else middleX + normalizedVectorX * (trafficTextWidth / 2 + 8 + strokeWidth * 6).
Definition inboundTrafficLabelY :=
  if overlap then middleY + normalizedVectorY * factor
  else middleY + normalizedVectorY * (trafficTextWidth / 2 + 8 + strokeWidth * 6).
End Locals.
End Link.

Record ConnectionElements := {
  arrowElements : list string;
  labelElements : list string;
  defsElements : list string
}.

(** The [path] element of an arrow, from an end point to the middle. *)
Definition arrowPath (x y mx my : float) (color : string) (strokeWidth : float)
    (markerId : string) : string :=
  q "<path d='M " +:+ toString x +:+ " " +:+ toString y +:+ " L " +:+ toString mx +:+ " " +:+
  toString my +:+ q "' stroke='" +:+ color +:+ q "' stroke-width='" +:+ toString strokeWidth +:+
  q "' marker-end='url(#" +:+ markerId +:+ q ")'/>".

Definition renderConnection (connection : ConnectionData.t) (colors : ColorDefinition)
    : ConnectionElements :=
  let outboundColor := getStrokeColor (ConnectionData.outboundTraffic connection) colors in
  let inboundColor := getStrokeColor (ConnectionData.inboundTraffic connection) colors in
  let outboundArrowMarker := createArrowMarker outboundColor in
  let inboundArrowMarker := createArrowMarker inboundColor in
  let outboundArrowMarkerId := getArrowMarkerId outboundColor in
  let inboundArrowMarkerId := getArrowMarkerId inboundColor in
  let outboundArrow :=
    arrowPath (ConnectionData.from_x connection) (ConnectionData.from_y connection)
      (Link.middleX connection) (Link.middleY connection)
      outboundColor (Link.strokeWidth connection) outboundArrowMarkerId in
  let inboundArrow :=
    arrowPath (ConnectionData.to_x connection) (ConnectionData.to_y connection)
      (Link.middleX connection) (Link.middleY connection)
      inboundColor (Link.strokeWidth connection) inboundArrowMarkerId in
  let outboundTraffic :=
    renderTraffic (Link.outboundTrafficLabelX connection) (Link.outboundTrafficLabelY connection)
      (ConnectionData.outboundTraffic connection) 12 in
  let inboundTraffic :=
    renderTraffic (Link.inboundTrafficLabelX connection) (Link.inboundTrafficLabelY connection)
      (ConnectionData.inboundTraffic connection) 12 in
  {| arrowElements := [outboundArrow; inboundArrow];
     labelElements := [outboundTraffic; inboundTraffic];
     defsElements := [outboundArrowMarker; inboundArrowMarker] |}.

Definition renderDevice (device : DeviceData.t) : string :=
  let x := toString (DeviceData.render_x device) in
  let y := toString (DeviceData.render_y device) in
  let use_ (icon : string) :=
    q "<use xlink:href='#" +:+ icon +:+ q "' x='" +:+ x +:+ q "' y='" +:+ y +:+ q "'/>" in
  let '(deviceSvg, deviceHeight) :=
    if String.eqb (DeviceData.type device) "switch" then (use_ "switch", 50)
    else if String.eqb (DeviceData.type device) "router" then (use_ "router", 50)
    else if String.eqb (DeviceData.type device) "cloud" then (use_ "cloud", 80)
    else ("", 50) in
  let labelY :=
    if String.eqb (DeviceData.label_position device) "top"
    then DeviceData.render_y device - (deviceHeight / 2 + 4)
    else DeviceData.render_y device + (deviceHeight / 2 + 20) in
  let labelSvg :=
    q "<text x='" +:+ x +:+ q "' y='" +:+ toString labelY +:+
    q "' text-anchor='middle' font-size='16' fill='#000000' stroke='none'>" +:+
    xmlescape (DeviceData.name device) +:+ "</text>" in
  deviceSvg +:+ "
" +:+ labelSvg.

Definition renderSite (site : SiteData.t) : string :=
  let siteSvg :=
    q "<rect x='" +:+ toString (SiteData.render_x site) +:+ q "' y='" +:+
    toString (SiteData.render_y site) +:+ q "' width='" +:+ toString (SiteData.width site) +:+
    q "' height='" +:+ toString (SiteData.height site) +:+
    q "' rx='16' fill='#ffffff' stroke='#000000' stroke-miterlimit='10'/>" in
  let labelY :=
    if String.eqb (SiteData.label_position site) "top"
    then SiteData.render_y site + 24
    else SiteData.render_y site + SiteData.height site - 8 in
  let labelSvg :=
    q "<text x='" +:+ toString (SiteData.render_x site + SiteData.width site / 2) +:+ q "' y='" +:+
    toString labelY +:+ q "' text-anchor='middle' font-size='16' fill='#000000' stroke='none'>" +:+
    xmlescape (SiteData.name site) +:+ "</text>" in
  siteSvg +:+ "
" +:+ labelSvg.

(** [renderDate] reads the clock: [now] is what [(new Date()).toISOString()]
    returned at the call. *)
Definition renderDate (renderData : RenderData.t) (now : string) : string :=
  let x := RenderData.width renderData - 8 in
  let y := RenderData.height renderData - 8 in
  let date := strip_from_dot (replace_first "T" " " now) in
  q "<text x='" +:+ toString x +:+ q "' y='" +:+ toString y +:+
  q "' text-anchor='end' font-size='12' fill='#000000' stroke='none'>" +:+ xmlescape date +:+ "</text>".

(** The arrays that [render] fills before it assembles the document. *)
Definition connectionElements (renderData : RenderData.t) : list ConnectionElements :=
  map (fun connection => renderConnection connection (RenderData.colors renderData))
      (RenderData.connections renderData).

Definition render_arrowElements (renderData : RenderData.t) : list string :=
  flat_map arrowElements (connectionElements renderData).

Definition render_labelElements (renderData : RenderData.t) : list string :=
  flat_map labelElements (connectionElements renderData).

Definition render_defsElements (renderData : RenderData.t) : list string :=
  flat_map defsElements (connectionElements renderData).

Definition render_elements (renderData : RenderData.t) (now : string) : list string :=
  [ renderBackground (RenderData.width renderData) (RenderData.height renderData);
    renderDiagramTitle (RenderData.title renderData) 24 ]
  ++ map renderSite (RenderData.sites renderData)
  ++ render_arrowElements renderData
  ++ render_labelElements renderData
  ++ map renderDevice (RenderData.devices renderData)
  ++ [ renderDate renderData now ].

Definition render (renderData : RenderData.t) (now : string) : string :=
  renderToSvg (RenderData.title renderData) (RenderData.width renderData)
    (RenderData.height renderData) (render_elements renderData now)
    (Set_of (render_defsElements renderData)).

(* ===================================================================== *)
(** * The end-to-end scenario of the specification *)
(* ===================================================================== *)

(** A router at (100,100) and a switch at (100,300), connected at 10G with
    5,000,000,000 bps outbound and 1,000,000,000 bps inbound, and no color
    configuration. *)
Module Scenario.
Definition router : DeviceData.t :=
  {| DeviceData.type := "router"; DeviceData.name := "router";
     DeviceData.render_x := 100; DeviceData.render_y := 100;
     DeviceData.label_position := "top" |}.

Definition switch : DeviceData.t :=
  {| DeviceData.type := "switch"; DeviceData.name := "switch";
     DeviceData.render_x := 100; DeviceData.render_y := 300;
     DeviceData.label_position := "bottom" |}.

Definition link : ConnectionData.t :=
  {| ConnectionData.from_x := DeviceData.render_x router;
     ConnectionData.from_y := DeviceData.render_y router;
     ConnectionData.to_x := DeviceData.render_x switch;
     ConnectionData.to_y := DeviceData.render_y switch;
     ConnectionData.speed := "10G";
     ConnectionData.outboundTraffic := 5000000000;
     ConnectionData.inboundTraffic := 1000000000 |}.

Definition data : RenderData.t :=
  {| RenderData.title := "Scenario"; RenderData.width := 800; RenderData.height := 600;
     RenderData.devices := [router; switch]; RenderData.sites := [];
     RenderData.connections := [link];
     RenderData.colors := fetchRenderData_colors None |}.

(** The same link as the switch reports it, and the diagram with both. *)
Definition back_link : ConnectionData.t :=
  {| ConnectionData.from_x := DeviceData.render_x switch;
     ConnectionData.from_y := DeviceData.render_y switch;
     ConnectionData.to_x := DeviceData.render_x router;
     ConnectionData.to_y := DeviceData.render_y router;
     ConnectionData.speed := "10G";
     ConnectionData.outboundTraffic := 1000000000;
     ConnectionData.inboundTraffic := 5000000000 |}.

Definition both_ways : RenderData.t :=
  {| RenderData.title := "Scenario"; RenderData.width := 800; RenderData.height := 600;
     RenderData.devices := [router; switch]; RenderData.sites := [];
     RenderData.connections := [link; back_link];
     RenderData.colors := fetchRenderData_colors None |}.

(** A connection of the router to itself: both ends at one point. *)
Definition self_link : ConnectionData.t :=
  {| ConnectionData.from_x := DeviceData.render_x router;
     ConnectionData.from_y := DeviceData.render_y router;
     ConnectionData.to_x := DeviceData.render_x router;
     ConnectionData.to_y := DeviceData.render_y router;
     ConnectionData.speed := "1G";
     ConnectionData.outboundTraffic := 5000000;
     ConnectionData.inboundTraffic := -1 |}.

(** A link between two devices of one height. *)
Definition level_link : ConnectionData.t :=
  {| ConnectionData.from_x := 100; ConnectionData.from_y := 100;
     ConnectionData.to_x := 400; ConnectionData.to_y := 100;
     ConnectionData.speed := "1G";
     ConnectionData.outboundTraffic := 30000000;
     ConnectionData.inboundTraffic := 2000000 |}.

(** A diagram whose six arrows have three colors, one of them four times. *)
Definition mixed : RenderData.t :=
  {| RenderData.title := "Scenario"; RenderData.width := 800; RenderData.height := 600;
     RenderData.devices := [router; switch]; RenderData.sites := [];
     RenderData.connections := [link; level_link; back_link];
     RenderData.colors := fetchRenderData_colors None |}.

(** The wall-clock reading of a call. *)
Definition clock : string := "2023-05-01T12:34:56.789Z".
End Scenario.

(* ===================================================================== *)
(** * Vocabulary of the statements *)
(* ===================================================================== *)

(** The shape of a number written in fixed notation: digits, at least one,
    a point, and exactly [f] digits. *)
Definition is_digit (a : ascii) : bool :=
  (48 <=? nat_of_ascii a)%nat && (nat_of_ascii a <=? 57)%nat.

Fixpoint all_digits (s : string) : bool :=
  match s with
  | EmptyString => true
  | String a s' => is_digit a && all_digits s'
  end.

Definition fixed_notation (f : nat) (s : string) : Prop :=
  exists a b : string,
    s = a +:+ "." +:+ b /\
    (0 < String.length a)%nat /\ all_digits a = true /\
    all_digits b = true /\ String.length b = f.

(** The opening of the document, up to its [defs] block. *)
Definition document_prologue (width height : float) : string :=
  q "<!-- Rendered with node-librenms-weathermap -->
<svg xmlns='http://www.w3.org/2000/svg' xmlns:xlink='http://www.w3.org/1999/xlink' viewBox='0 0 " +:+
  toString width +:+ " " +:+ toString height +:+ q "' font-family='sans-serif'>
".
(** The icons of the [defs] block: what stands between [<defs>] and the
    closing tag in a document without connections. *)
Definition document_icons : string :=
  let document := renderToSvg "" 0 0 [] [] in
  match String.index 0 "<defs>" document, String.index 0 "
</defs>" document with
  | Some i, Some j => String.substring (i + 6) (j - (i + 6)) document
  | _, _ => ""
  end.

(** Whether a text occurs in another. *)
Definition occurs (pattern s : string) : bool :=
  match String.index 0 pattern s with
  | Some _ => true
  | None => false
  end.

(** The characters that [xmlescape] replaces, and the texts without any of
    them. *)
Definition special (a : ascii) : bool :=
  Ascii.eqb a "&" || Ascii.eqb a "<" || Ascii.eqb a ">" || Ascii.eqb a "'" || Ascii.eqb a dquote.

Fixpoint plain (s : string) : bool :=
  match s with
  | EmptyString => true
  | String a s' => negb (special a) && plain s'
  end.

(** The number of occurrences of a character in a text. *)
Fixpoint count_char (c : ascii) (s : string) : nat :=
  match s with
  | EmptyString => 0
  | String a s' => (if Ascii.eqb a c then 1 else 0) + count_char c s'
  end.

(** The stroke colors of the arrows of a diagram, in the order in which
    [render] meets them. *)
Definition render_arrowColors (renderData : RenderData.t) : list string :=
  flat_map
    (fun connection =>
       [ getStrokeColor (ConnectionData.outboundTraffic connection) (RenderData.colors renderData);
         getStrokeColor (ConnectionData.inboundTraffic connection) (RenderData.colors renderData) ])
    (RenderData.connections renderData).

(** The device types for which [renderDevice] draws an icon. *)
Definition has_icon (type : string) : bool :=
  String.eqb type "switch" || String.eqb type "router" || String.eqb type "cloud".

(* ===================================================================== *)
(** * Facts about strings, arrays and the assembled document *)
(* ===================================================================== *)

Section Fragments.

(** [String.append] and [join]. *)

Lemma append_cons (x : ascii) (a b : string) : String x a +:+ b = String x (a +:+ b).
Proof. reflexivity. Qed.

Lemma append_assoc (a b c : string) : (a +:+ b) +:+ c = a +:+ (b +:+ c).
Proof. induction a as [| x a IH]; [reflexivity |]. rewrite !append_cons. now f_equal. Qed.

Lemma append_nil_r (a : string) : a +:+ "" = a.
Proof. induction a as [| x a IH]; [reflexivity |]. rewrite append_cons. now f_equal. Qed.

Lemma Set_add_In (s : list string) (x y : string) :
  In y (Set_add s x) <-> In y s \/ y = x.
Proof.
  unfold Set_add. case_bool_decide as Hx.
  - apply list_elem_of_In in Hx. split; [tauto | intros [H | ->]; assumption].
  - rewrite in_app_iff. simpl. intuition congruence.
Qed.

Lemma Set_add_NoDup (s : list string) (x : string) :
  List.NoDup s -> List.NoDup (Set_add s x).
Proof.
  intros Hs. unfold Set_add. case_bool_decide as Hx; [assumption |].
  rewrite list_elem_of_In in Hx.
  apply NoDup_ListNoDup, NoDup_app. repeat split.
  - now apply NoDup_ListNoDup.
  - intros y Hy Hy'. apply list_elem_of_In in Hy.
    apply list_elem_of_In in Hy'. destruct Hy' as [<- | []]. contradiction.
  - apply NoDup_ListNoDup. constructor; [simpl; tauto | constructor].
Qed.

Lemma fold_Set_add_In (l s : list string) (y : string) :
  In y (fold_left Set_add l s) <-> In y s \/ In y l.
Proof.
  revert s. induction l as [| x l IH]; intros s; simpl.
  - tauto.
  - rewrite IH, Set_add_In. intuition congruence.
Qed.

Lemma fold_Set_add_NoDup (l s : list string) :
  List.NoDup s -> List.NoDup (fold_left Set_add l s).
Proof.
  revert s. induction l as [| x l IH]; intros s Hs; simpl; [assumption |].
  apply IH, Set_add_NoDup, Hs.
Qed.

(** A [Set] has the values of the array it is built from, each once. *)
Lemma Set_of_In (l : list string) (y : string) : In y (Set_of l) <-> In y l.
Proof. unfold Set_of. rewrite fold_Set_add_In. simpl. tauto. Qed.

Lemma Set_of_NoDup (l : list string) : List.NoDup (Set_of l).
Proof. apply fold_Set_add_NoDup. constructor. Qed.

Lemma Set_of_count (l : list string) (y : string) :
  In y l -> count_occ string_dec (Set_of l) y = 1%nat.
Proof.
  intros Hy. apply (proj1 (NoDup_count_occ' string_dec (Set_of l))).
  - apply Set_of_NoDup.
  - now apply Set_of_In.
Qed.

(** [join] puts every element of the array into the text. *)
Lemma join_In (sep : string) (l : list string) (x : string) :
  In x l -> exists before after, join sep l = before +:+ x +:+ after.
Proof.
  induction l as [| y l IH]; intros Hx; [destruct Hx |].
  destruct Hx as [-> | Hx].
  - destruct l as [| z l].
    + exists "", "". symmetry. apply append_nil_r.
    + exists "", (sep +:+ join sep (z :: l)). reflexivity.
  - destruct (IH Hx) as (b & a & E). destruct l as [| z l]; [destruct Hx |].
    exists (y +:+ sep +:+ b), a.
    change (join sep (y :: z :: l)) with (y +:+ sep +:+ join sep (z :: l)).
    rewrite E. now rewrite !append_assoc.
Qed.

Lemma join_snoc (sep : string) (l : list string) (x y : string) :
  join sep ((x :: l) ++ [y]) = join sep (x :: l) +:+ sep +:+ y.
Proof.
  revert x. induction l as [| z l IH]; intros x.
  - reflexivity.
  - change (join sep ((x :: z :: l) ++ [y])) with (x +:+ sep +:+ join sep ((z :: l) ++ [y])).
    rewrite IH.
    change (join sep (x :: z :: l)) with (x +:+ sep +:+ join sep (z :: l)).
    now rewrite !append_assoc.
Qed.

Section Collected.

Variable rd : RenderData.t.

(** The fragments of the connections of a [RenderData]. *)
Lemma render_arrowElements_In (a : string) :
  In a (render_arrowElements rd) <->
  exists c, In c (RenderData.connections rd) /\
            In a (arrowElements (renderConnection c (RenderData.colors rd))).
Proof.
  unfold render_arrowElements, connectionElements. rewrite in_flat_map. split.
  - intros (e & He & Ha). apply in_map_iff in He as (c & <- & Hc). eauto.
  - intros (c & Hc & Ha). eexists. split; [| exact Ha]. apply in_map_iff. eauto.
Qed.

Lemma render_defsElements_In (d : string) :
  In d (render_defsElements rd) <->
  exists c, In c (RenderData.connections rd) /\
            In d (defsElements (renderConnection c (RenderData.colors rd))).
Proof.
  unfold render_defsElements, connectionElements. rewrite in_flat_map. split.
  - intros (e & He & Hd). apply in_map_iff in He as (c & <- & Hc). eauto.
  - intros (c & Hc & Hd). eexists. split; [| exact Hd]. apply in_map_iff. eauto.
Qed.

(** The marker of the color of either arrow of a connection is among the
    marker definitions collected by [render]. *)
Lemma marker_collected (c : ConnectionData.t) (t : float) :
  In c (RenderData.connections rd) ->
  t = ConnectionData.outboundTraffic c \/ t = ConnectionData.inboundTraffic c ->
  In (createArrowMarker (getStrokeColor t (RenderData.colors rd))) (render_defsElements rd).
Proof.
  intros Hc Ht. apply render_defsElements_In. exists c. split; [assumption |].
  unfold renderConnection; cbn [defsElements]. destruct Ht as [-> | ->]; simpl; tauto.
Qed.

End Collected.

Lemma append_split3 (a b c d r : string) :
  a = b +:+ c +:+ d -> a +:+ r = b +:+ c +:+ d +:+ r.
Proof. intros ->. now rewrite !append_assoc. Qed.

Lemma renderToSvg_blocks :
  exists icons, forall (title : string) (width height : float)
                       (elements defsElements : list string),
    renderToSvg title width height elements defsElements =
    document_prologue width height +:+ "<defs>" +:+ icons +:+ join "
  " defsElements +:+ "
</defs>" +:+ "
<title>" +:+ xmlescape title +:+ "</title>
" +:+ join "
" elements +:+ "
</svg>".
Proof.
  unfold renderToSvg, document_prologue. cbv zeta.
  match goal with
  | |- context [q ?lit] =>
      exists (drop 34 (q lit)); intros;
      rewrite !append_assoc;
      do 4 (apply (f_equal2 String.append); [reflexivity |]);
      apply append_split3; vm_compute; reflexivity
  end.
Qed.

End Fragments.

(* ===================================================================== *)
(** * Fixed notation *)
(* ===================================================================== *)

(** What [fixed_digits] writes is in fixed notation. *)
Section FixedNotation.

Lemma all_digits_app (a b : string) :
  all_digits (a +:+ b) = all_digits a && all_digits b.
Proof.
  induction a as [| x a IH]; [reflexivity |].
  rewrite append_cons. simpl. now rewrite IH, andb_assoc.
Qed.

Lemma length_app (a b : string) :
  String.length (a +:+ b) = (String.length a + String.length b)%nat.
Proof. induction a as [| x a IH]; [reflexivity |]. rewrite append_cons. simpl. now rewrite IH. Qed.

Lemma all_digits_zeros (n : nat) : all_digits (zeros n) = true.
Proof. induction n; simpl; auto. Qed.

Lemma length_zeros (n : nat) : String.length (zeros n) = n.
Proof. induction n; simpl; auto. Qed.

Lemma all_digits_uint (u : Decimal.uint) : all_digits (NilEmpty.string_of_uint u) = true.
Proof. induction u; simpl; auto. Qed.

Lemma all_digits_digits (n : Z) : all_digits (digits n) = true.
Proof. apply all_digits_uint. Qed.

Lemma all_digits_substring (s : string) (i j : nat) :
  all_digits s = true -> all_digits (String.substring i j s) = true.
Proof.
  revert i j. induction s as [| x s IH]; intros i j H.
  - destruct i, j; reflexivity.
  - simpl in H. apply andb_true_iff in H as [Hx Hs].
    destruct i as [| i]; [destruct j as [| j] |]; simpl; auto.
    now rewrite Hx, IH.
Qed.

Lemma length_substring (s : string) (i j : nat) :
  (i + j <= String.length s)%nat -> String.length (String.substring i j s) = j.
Proof.
  revert i j. induction s as [| x s IH]; intros i j H; simpl in H.
  - destruct i, j; simpl; lia.
  - destruct i as [| i]; [destruct j as [| j] |]; simpl; auto.
    + rewrite (IH 0%nat j); lia.
    + apply IH. lia.
Qed.

Lemma fixed_digits_notation (n : Z) (f : nat) :
  (0 < f)%nat -> fixed_notation f (fixed_digits n f).
Proof.
  intros Hf. unfold fixed_digits. destruct f as [| f]; [lia |].
  set (m := zeros (S (S f) - String.length (digits n)) +:+ digits n).
  assert (Hm : all_digits m = true).
  { unfold m. now rewrite all_digits_app, all_digits_zeros, all_digits_digits. }
  assert (Hk : (S (S f) <= String.length m)%nat).
  { unfold m. rewrite length_app, length_zeros. lia. }
  exists (String.substring 0 (String.length m - S f) m),
    (String.substring (String.length m - S f) (S f) m).
  repeat split.
  - rewrite length_substring; lia.
  - now apply all_digits_substring.
  - now apply all_digits_substring.
  - apply length_substring. lia.
Qed.

End FixedNotation.

(* ===================================================================== *)
(** * Facts about numbers *)
(* ===================================================================== *)

(** The arithmetic of [float] is specified through [Prim2SF]; these are the
    facts the degenerate geometry needs. *)
Section FloatFacts.

(** A finite number is a zero or has a sign, a mantissa and an exponent. *)
Lemma is_finite_cases (x : float) :
  is_finite x = true ->
  (exists s, Prim2SF x = S754_zero s) \/ (exists s m e, Prim2SF x = S754_finite s m e).
Proof.
  unfold is_finite, is_nan, is_infinity.
  rewrite !FloatAxioms.eqb_spec, abs_spec.
  destruct (Prim2SF x) as [s | s | | s m e] eqn:E; cbn; eauto.
  - destruct s; cbn; discriminate.
  - discriminate.
Qed.

(** The difference of a finite number with itself is +0. *)
Lemma sub_diag (x : float) : is_finite x = true -> x - x = 0.
Proof.
  intros H. apply Prim2SF_inj. rewrite sub_spec.
  destruct (is_finite_cases x H) as [[s ->] | (s & m & e & ->)].
  - destruct s; reflexivity.
  - unfold SF64sub, SFsub. rewrite Z.sub_diag. reflexivity.
Qed.

(** Adding +0 changes nothing but the sign of -0. *)
Lemma add_zero_r (x : float) :
  is_finite x = true -> x + 0 = x \/ (is_zero x = true /\ x + 0 = 0).
Proof.
  intros H.
  destruct (is_finite_cases x H) as [[s E] | (s & m & e & E)].
  - right. split.
    + unfold is_zero. rewrite FloatAxioms.eqb_spec, E. reflexivity.
    + apply Prim2SF_inj. rewrite add_spec, E. destruct s; reflexivity.
  - left. apply Prim2SF_inj. rewrite add_spec, E. reflexivity.
Qed.

Lemma toString_zero (x : float) : is_zero x = true -> toString x = "0".
Proof.
  unfold is_zero, toString. rewrite FloatAxioms.eqb_spec.
  destruct (Prim2SF x) as [s | s | | s m e]; cbn; try discriminate; try reflexivity.
  - destruct s; discriminate.
  - destruct s; discriminate.
Qed.

Lemma toString_add_zero (x : float) :
  is_finite x = true -> toString (x + 0) = toString x.
Proof.
  intros H. destruct (add_zero_r x H) as [-> | [Hz ->]]; [reflexivity |].
  now rewrite (toString_zero x Hz).
Qed.

(** NaN is absorbing. *)
Lemma mul_nan_l (y : float) : nan * y = nan.
Proof. apply Prim2SF_inj. rewrite mul_spec. reflexivity. Qed.

Lemma sub_nan_r (x : float) : x - nan = nan.
Proof.
  apply Prim2SF_inj. rewrite sub_spec.
  change (Prim2SF nan) with S754_nan. now destruct (Prim2SF x).
Qed.

Lemma add_nan_r (x : float) : x + nan = nan.
Proof.
  apply Prim2SF_inj. rewrite add_spec.
  change (Prim2SF nan) with S754_nan. now destruct (Prim2SF x).
Qed.

End FloatFacts.


(** Division rounds its exact quotient with [binary_round_aux]; its result is
    bounded here through the exponent it can reach. *)
Section Rounding.
Local Open Scope Z_scope.

(** [Zdigits2] counts binary digits. *)
Lemma digits2_size (p : positive) : digits2_pos p = Pos.size p.
Proof. induction p; simpl; congruence. Qed.

Lemma Zdigits2_nonneg (m : Z) : 0 <= Zdigits2 m.
Proof. destruct m; simpl; lia. Qed.

Lemma Zdigits2_gt (m : Z) : 0 <= m -> m < 2 ^ Zdigits2 m.
Proof.
  destruct m as [| p | p]; simpl; intros H; [lia | | lia].
  rewrite digits2_size, <- Pos2Z.inj_pow. apply Pos2Z.pos_lt_pos, Pos.size_gt.
Qed.

Lemma Zdigits2_le (m k : Z) : 0 <= m -> 0 <= k -> m < 2 ^ k -> Zdigits2 m <= k.
Proof.
  destruct m as [| p | p]; simpl; intros Hm Hk H; [lia | | lia].
  rewrite digits2_size.
  assert (Hle : 2 ^ Zpos (Pos.size p) <= 2 * Zpos p).
  { rewrite <- Pos2Z.inj_pow. apply Pos2Z.pos_le_pos, Pos.size_le. }
  assert (Hlt : 2 ^ Zpos (Pos.size p) < 2 ^ (k + 1)).
  { rewrite Z.pow_add_r, Z.pow_1_r by lia. lia. }
  apply Z.pow_lt_mono_r_iff in Hlt; lia.
Qed.

(** Shifting a mantissa to the right halves it. *)
Lemma shr_1_bound (r : shr_record) :
  0 <= shr_m r -> 0 <= shr_m (shr_1 r) /\ 2 * shr_m (shr_1 r) <= shr_m r.
Proof. destruct r as [[| [p | p |] | p] r s]; simpl; lia. Qed.

Lemma iter_shr_1_bound (p : positive) (r : shr_record) :
  0 <= shr_m r ->
  0 <= shr_m (SpecFloat.iter_pos shr_1 p r) /\
  2 ^ Zpos p * shr_m (SpecFloat.iter_pos shr_1 p r) <= shr_m r.
Proof.
  revert r. induction p as [p IH | p IH |]; intros r Hr; simpl SpecFloat.iter_pos.
  - destruct (shr_1_bound r Hr) as [H1 H1'].
    destruct (IH _ H1) as [H2 H2']. destruct (IH _ H2) as [H3 H3'].
    split; [assumption |].
    replace (Zpos p~1) with (Zpos p + Zpos p + 1) by lia.
    rewrite !Z.pow_add_r, Z.pow_1_r by lia.
    assert (0 < 2 ^ Zpos p) by (apply Z.pow_pos_nonneg; lia). nia.
  - destruct (IH _ Hr) as [H2 H2']. destruct (IH _ H2) as [H3 H3'].
    split; [assumption |].
    replace (Zpos p~0) with (Zpos p + Zpos p) by lia.
    rewrite !Z.pow_add_r by lia.
    assert (0 < 2 ^ Zpos p) by (apply Z.pow_pos_nonneg; lia). nia.
  - destruct (shr_1_bound r Hr). split; [assumption |]. rewrite Z.pow_1_r. lia.
Qed.

Lemma shr_record_of_loc_m (m : Z) (l : location) : shr_m (shr_record_of_loc m l) = m.
Proof. destruct l as [| []]; reflexivity. Qed.

(** One [shr_fexp]: a mantissa below [2 ^ k] at exponent [e], with
    [k + e <= B] and [e <= B - prec], stays so. *)
Lemma shr_fexp_bound (m e : Z) (l : location) (k B : Z) :
  0 <= m -> 0 <= k -> m < 2 ^ k -> k + e <= B -> e <= B - prec ->
  SpecFloat.emin prec emax <= B - prec ->
  let '(r, e') := shr_fexp prec emax m e l in
  0 <= shr_m r /\ e' <= B - prec /\
  exists k', 0 <= k' /\ shr_m r < 2 ^ k' /\ k' + e' <= B.
Proof.
  intros Hm Hk Hlt HB He Hmin. unfold shr_fexp, shr.
  pose proof (Zdigits2_le m k Hm Hk Hlt) as Hd.
  pose proof (Zdigits2_nonneg m) as Hd0.
  pose proof (Zdigits2_gt m Hm) as Hdm.
  set (d := Zdigits2 m) in *.
  destruct (fexp prec emax (d + e) - e) as [| p | p] eqn:En.
  - rewrite shr_record_of_loc_m. repeat split; try assumption. exists k. auto.
  - destruct (iter_shr_1_bound p (shr_record_of_loc m l)) as [H1 H2].
    { now rewrite shr_record_of_loc_m. }
    rewrite shr_record_of_loc_m in H2.
    unfold fexp, SpecFloat.emin, prec, emax in *.
    repeat split; [assumption | lia |].
    exists (Z.max 0 (d - Zpos p)). split; [lia |]. split; [| lia].
    destruct (Z.le_gt_cases (Zpos p) d) as [Hpd | Hpd].
    + rewrite Z.max_r by lia.
      assert (0 < 2 ^ Zpos p) by (apply Z.pow_pos_nonneg; lia).
      assert (2 ^ d = 2 ^ Zpos p * 2 ^ (d - Zpos p)).
      { rewrite <- Z.pow_add_r by lia. f_equal. lia. }
      nia.
    + rewrite Z.max_l by lia.
      assert (2 ^ d < 2 ^ Zpos p) by (apply Z.pow_lt_mono_r; lia).
      assert (0 < 2 ^ Zpos p) by (apply Z.pow_pos_nonneg; lia).
      rewrite Z.pow_0_r. nia.
  - rewrite shr_record_of_loc_m. repeat split; try assumption. exists k. auto.
Qed.

Lemma round_nearest_even_bound (m : Z) (l : location) :
  0 <= m -> m <= round_nearest_even m l <= m + 1.
Proof.
  intros Hm. destruct l as [| []]; simpl; try lia. destruct (Z.even m); lia.
Qed.

(** The result of rounding a nonnegative mantissa is a zero or a finite
    number of the given sign, whose exponent is bounded. *)
Lemma binary_round_aux_bound (s : bool) (m e : Z) (l : location) (B : Z) :
  0 <= m -> Zdigits2 m + e <= B -> e <= B - prec ->
  SpecFloat.emin prec emax <= B - prec -> B + 1 - prec <= emax - prec ->
  binary_round_aux prec emax s m e l = S754_zero s \/
  exists m' e', binary_round_aux prec emax s m e l = S754_finite s m' e' /\ e' <= B + 1 - prec.
Proof.
  intros Hm HB He Hmin Hmax. unfold binary_round_aux.
  pose proof (shr_fexp_bound m e l (Zdigits2 m) B Hm (Zdigits2_nonneg m)
                (Zdigits2_gt m Hm) HB He Hmin) as H1.
  destruct (shr_fexp prec emax m e l) as [r1 e1].
  destruct H1 as (Hr1 & He1 & k1 & Hk1 & Hlt1 & HB1).
  pose proof (round_nearest_even_bound (shr_m r1) (loc_of_shr_record r1) Hr1) as Hrn.
  set (mr := round_nearest_even (shr_m r1) (loc_of_shr_record r1)) in *.
  assert (Hlt2 : mr < 2 ^ (k1 + 1)).
  { rewrite Z.pow_add_r, Z.pow_1_r by lia. lia. }
  pose proof (shr_fexp_bound mr e1 loc_Exact (k1 + 1) (B + 1)) as H2.
  destruct (shr_fexp prec emax mr e1 loc_Exact) as [r2 e2].
  destruct H2 as (Hr2 & He2 & _); try lia.
  destruct (shr_m r2) as [| p | p]; [now left | right | lia].
  exists p, e2. split; [| lia].
  destruct (Z.leb_spec e2 (emax - prec)); [reflexivity | lia].
Qed.

(** The quotient of two positive finite numbers. *)
Lemma SFdiv_finite_bound (m1 : positive) (e1 : Z) (m2 : positive) (e2 : Z) :
  Zpos (digits2_pos m1) <= prec ->
  SpecFloat.emin prec emax <= e1 - e2 -> e1 - e2 + 1 <= emax - prec ->
  let x := SFdiv prec emax (S754_finite false m1 e1) (S754_finite false m2 e2) in
  x = S754_zero false \/ exists m e, x = S754_finite false m e /\ e <= e1 - e2 + 1.
Proof.
  intros Hd Hmin Hmax. cbv zeta. unfold SFdiv, SFdiv_core_binary.
  set (e' := Z.min _ _).
  set (m' := match e1 - e2 - e' with Z0 => Zpos m1 | Zpos _ => Z.shiftl (Zpos m1) (e1 - e2 - e') | Zneg _ => 0 end).
  assert (He' : e' <= e1 - e2) by (unfold e'; lia).
  assert (Hm' : 0 <= m' /\ m' < 2 ^ (prec + (e1 - e2 - e'))).
  { pose proof (Zdigits2_gt (Zpos m1) ltac:(lia)) as Hg. simpl Zdigits2 in Hg.
    assert (Hp : 2 ^ Zpos (digits2_pos m1) <= 2 ^ prec) by (apply Z.pow_le_mono_r; lia).
    unfold m'. destruct (e1 - e2 - e') as [| p | p] eqn:Es.
    - rewrite Z.add_0_r. lia.
    - rewrite Z.shiftl_mul_pow2 by lia.
      assert (0 < 2 ^ Zpos p) by (apply Z.pow_pos_nonneg; lia).
      rewrite Z.pow_add_r by (unfold prec; lia). nia.
    - lia. }
  destruct Hm' as [Hm0 Hm1].
  pose proof (Z_div_mod m' (Zpos m2) ltac:(lia)) as Hdiv.
  destruct (Z.div_eucl m' (Zpos m2)) as [qq rr]. destruct Hdiv as [Hq Hr].
  assert (Hq0 : 0 <= qq) by nia.
  assert (Hq1 : qq <= m') by nia.
  cbn [xorb].
  replace (e1 - e2 + 1) with ((e1 - e2 + prec) + 1 - prec) by lia.
  apply binary_round_aux_bound; try lia.
  assert (Zdigits2 qq <= prec + (e1 - e2 - e')).
  { apply Zdigits2_le; [assumption | unfold prec; lia | lia]. }
  lia.
Qed.

(** [nearest_scaled] is the nearest integer to the number scaled by
    [10 ^ f], the larger one of two. *)
Lemma nearest_scaled_spec (m : positive) (e : Z) (f : nat) :
  let n := nearest_scaled m e f in
  let v := Zpos m * 10 ^ Z.of_nat f in
  if 0 <=? e then n = v * 2 ^ e
  else (2 * n - 1) * 2 ^ (- e) <= 2 * v < (2 * n + 1) * 2 ^ (- e).
Proof.
  cbv zeta. unfold nearest_scaled.
  destruct (Z.leb_spec 0 e) as [He | He]; [reflexivity |].
  set (v := Zpos m * 10 ^ Z.of_nat f).
  replace (1 - e) with (- e + 1) by lia.
  rewrite Z.pow_add_r, Z.pow_1_r by lia.
  assert (Hp : 0 < 2 ^ (- e)) by (apply Z.pow_pos_nonneg; lia).
  pose proof (Z.div_mod (2 * v + 2 ^ (- e)) (2 ^ (- e) * 2) ltac:(lia)) as Hd.
  pose proof (Z.mod_pos_bound (2 * v + 2 ^ (- e)) (2 ^ (- e) * 2) ltac:(lia)) as Hm.
  nia.
Qed.

End Rounding.



(** Comparisons of numbers, read on their [spec_float]. *)
Section FloatOrder.

Lemma SFcompare_antisym (x y : spec_float) (c : comparison) :
  SFcompare x y = Some c -> SFcompare y x = Some (CompOpp c).
Proof.
  destruct x as [[] | [] | | [] m1 e1], y as [[] | [] | | [] m2 e2]; simpl;
    try discriminate.
  all: intros H; injection H as <-; try reflexivity.
  all: f_equal; rewrite (Z.compare_antisym e1 e2); destruct (e1 ?= e2)%Z; simpl;
    try reflexivity.
  all: change (Pos.compare_cont Eq m2 m1) with (m2 ?= m1)%positive;
    change (Pos.compare_cont Eq m1 m2) with (m1 ?= m2)%positive;
    rewrite (Pos.compare_antisym m1 m2); now destruct (m1 ?= m2)%positive.
Qed.

Lemma leb_not_ltb (a b : float) : (a <=? b) = true -> (b <? a) = false.
Proof.
  rewrite leb_spec, ltb_spec. unfold SFleb, SFltb.
  destruct (SFcompare (Prim2SF a) (Prim2SF b)) as [c |] eqn:E; [| discriminate].
  rewrite (SFcompare_antisym _ _ _ E). now destruct c.
Qed.

(** A number that is at least a positive finite number is positive, and
    finite with at least its exponent, or infinite. *)
Lemma leb_finite (c t : float) (mc : positive) (ec : Z) :
  Prim2SF c = S754_finite false mc ec -> (c <=? t) = true ->
  Prim2SF t = S754_infinity false \/
  exists m e, Prim2SF t = S754_finite false m e /\ (ec <= e)%Z.
Proof.
  intros Ec. rewrite leb_spec, Ec. unfold SFleb.
  destruct (Prim2SF t) as [[] | [] | | [] m e]; simpl; try discriminate; auto.
  intros H. right. exists m, e. split; [reflexivity |].
  destruct (Z.compare_spec ec e); lia || discriminate.
Qed.

(** Such a number is not below a finite number of a lesser exponent. *)
Lemma ltb_lower (t c : float) (x : spec_float) (ec : Z) :
  (Prim2SF t = S754_infinity false \/
   exists m e, Prim2SF t = S754_finite false m e /\ (ec <= e)%Z) ->
  Prim2SF c = x ->
  match x with
  | S754_zero _ => True
  | S754_finite false _ e0 => (e0 < ec)%Z
  | _ => False
  end ->
  (t <? c) = false.
Proof.
  intros Ht Ec Hx. rewrite ltb_spec, Ec. unfold SFltb.
  destruct Ht as [-> | (m & e & -> & He)].
  - destruct x as [| | | [] m0 e0]; try contradiction; reflexivity.
  - destruct x as [| | | [] m0 e0]; try contradiction; simpl; [reflexivity |].
    destruct (Z.compare_spec e e0); lia || reflexivity.
Qed.

(** A nonnegative number below a positive finite one is a zero, or positive
    and finite with at most its exponent. *)
Lemma ltb_finite (t c : float) (mc : positive) (ec : Z) :
  Prim2SF c = S754_finite false mc ec -> (t <? 0) = false -> (t <? c) = true ->
  (exists s, Prim2SF t = S754_zero s) \/
  exists m e, Prim2SF t = S754_finite false m e /\ (e <= ec)%Z.
Proof.
  intros Ec. rewrite !ltb_spec, Ec. change (Prim2SF 0) with (S754_zero false).
  unfold SFltb.
  destruct (Prim2SF t) as [s | [] | | [] m e]; simpl; try discriminate; eauto.
  intros _ H. right. exists m, e. split; [reflexivity |].
  destruct (Z.compare_spec e ec); lia || discriminate.
Qed.

Lemma valid_finite (t : float) (s : bool) (m : positive) (e : Z) :
  Prim2SF t = S754_finite s m e ->
  (Zpos (digits2_pos m) <= prec)%Z /\ (SpecFloat.emin prec emax <= e)%Z.
Proof.
  intros E. pose proof (Prim2SF_valid t) as H. rewrite E in H.
  unfold valid_binary, bounded, canonical_mantissa, fexp in H.
  apply andb_true_iff in H as [H _]. apply Z.eqb_eq in H. lia.
Qed.

(** The quotient of such a number by a positive finite one. *)
Lemma div_bounded (t c d : float) (mc md : positive) (ec ed : Z) :
  Prim2SF c = S754_finite false mc ec ->
  Prim2SF d = S754_finite false md ed ->
  (ed <= 0)%Z -> (ec - ed + 1 <= emax - prec)%Z ->
  (t <? 0) = false -> (t <? c) = true ->
  (exists s, Prim2SF (t / d) = S754_zero s) \/
  exists m e, Prim2SF (t / d) = S754_finite false m e /\ (e <= ec - ed + 1)%Z.
Proof.
  intros Ec Ed Hed Hmax H0 Hc. rewrite div_spec, Ed. unfold SF64div.
  destruct (ltb_finite t c mc ec Ec H0 Hc) as [[s ->] | (m & e & E & He)].
  - left. eexists. reflexivity.
  - destruct (valid_finite t false m e E) as [Hd Hmin]. rewrite E.
    destruct (SFdiv_finite_bound m e md ed Hd) as [-> | (m' & e' & -> & He')];
      unfold SpecFloat.emin, prec, emax in *; try lia.
    + left. eexists. reflexivity.
    + right. exists m', e'. split; [reflexivity | lia].
Qed.

(** The sign of a rounded number is the one asked for. *)
Lemma binary_round_aux_sign (s : bool) (m e : Z) (l : location) :
  match binary_round_aux prec emax s m e l with
  | S754_zero s' | S754_infinity s' | S754_finite s' _ _ => s' = s
  | S754_nan => True
  end.
Proof.
  unfold binary_round_aux.
  destruct (shr_fexp prec emax m e l) as [r1 e1].
  destruct (shr_fexp prec emax _ e1 loc_Exact) as [r2 e2].
  destruct (shr_m r2); [reflexivity | | exact I].
  now destruct (e2 <=? emax - prec)%Z.
Qed.

(** The quotient of a positive number, finite or not, by a positive finite
    one is not negative. *)
Lemma div_positive (t d : float) (md : positive) (ed : Z) :
  Prim2SF d = S754_finite false md ed ->
  (Prim2SF t = S754_infinity false \/ exists m e, Prim2SF t = S754_finite false m e) ->
  (t / d <? 0) = false.
Proof.
  intros Ed Ht. rewrite ltb_spec, div_spec, Ed. change (Prim2SF 0) with (S754_zero false).
  destruct Ht as [-> | (m & e & ->)]; [reflexivity |].
  unfold SF64div, SFdiv. destruct (SFdiv_core_binary _ _ _ _ _ _) as [[mz ez] lz].
  pose proof (binary_round_aux_sign (xorb false false) mz ez lz) as Hs.
  destruct (binary_round_aux _ _ _ _ _ _); try reflexivity; simpl in Hs; now subst.
Qed.

(** A zero, or a positive finite number whose exponent is below the one of
    [1e21], is not negative and is below [1e21]. *)
Lemma small_exponent (x : float) :
  (exists s, Prim2SF x = S754_zero s) \/
  (exists m e, Prim2SF x = S754_finite false m e /\ (e < 17)%Z) ->
  (x <? 0) = false /\ (x <? 1e21) = true.
Proof.
  rewrite !ltb_spec. change (Prim2SF 1e21) with (S754_finite false 7629394531250000 17).
  change (Prim2SF 0) with (S754_zero false).
  intros [[s ->] | (m & e & -> & He)]; unfold SFltb, SFcompare; [auto |].
  destruct (Z.compare_spec e 17); lia || auto.
Qed.

(** [toFixed] of a number that is not negative and is below [1e21]. *)
Lemma toFixed_notation (x : float) (f : nat) :
  (0 < f)%nat -> (x <? 0) = false -> (x <? 1e21) = true ->
  fixed_notation f (toFixed x f).
Proof.
  intros Hf H0 H21. unfold toFixed, is_finite, is_nan, is_infinity.
  rewrite leb_spec, !FloatAxioms.eqb_spec, abs_spec.
  rewrite !ltb_spec in *.
  change (Prim2SF 1e21) with (S754_finite false 7629394531250000 17) in *.
  change (Prim2SF infinity) with (S754_infinity false).
  change (Prim2SF 0) with (S754_zero false) in *.
  destruct (Prim2SF x) as [s | [] | | [] m e]; try discriminate.
  - now apply fixed_digits_notation.
  - unfold SFltb in H21.
    destruct (SFcompare (S754_finite false m e) (S754_finite false 7629394531250000 17))
      as [[] |] eqn:E; try discriminate.
    apply SFcompare_antisym in E. cbn [SFabs]. unfold SFleb. rewrite E.
    unfold SFeqb; simpl. rewrite Z.compare_refl, Pos.compare_cont_refl. simpl.
    now apply fixed_digits_notation.
Qed.

End FloatOrder.

(* ===================================================================== *)
(** * Stroke width and the default colors *)
(* ===================================================================== *)

(** C7: the stroke width of each enumerated speed is the one of the fixed
    table 10M -> 0.5, 100M -> 1, 1G -> 2, 10G -> 4, 40G -> 6, 100G -> 8, and
    every other value of [speed] gives the stroke width 0. *)
Theorem getStrokeWidth_table :
  getStrokeWidth "10M" = 0.5 /\
  getStrokeWidth "100M" = 1 /\
  getStrokeWidth "1G" = 2 /\
  getStrokeWidth "10G" = 4 /\
  getStrokeWidth "40G" = 6 /\
  getStrokeWidth "100G" = 8 /\
  forall speed : string, speed ∉ ConnectionSpeed -> getStrokeWidth speed = 0.
Proof.
  repeat (split; [reflexivity |]).
  intros speed Hout. unfold getStrokeWidth, ConnectionSpeed in *.
  repeat match goal with
         | |- context [String.eqb speed ?s] =>
             destruct (String.eqb_spec speed s) as [-> | _];
             [ exfalso; apply Hout; set_solver | ]
         end.
  reflexivity.
Qed.

(** A speed that the type does not list. *)
Lemma getStrokeWidth_table_witness :
  ("25G" ∉ ConnectionSpeed) /\ getStrokeWidth "25G" = 0.
Proof.
  assert (H : "25G" ∉ ConnectionSpeed).
  { unfold ConnectionSpeed. rewrite !elem_of_cons, elem_of_nil.
    intros [H | [H | [H | [H | [H | [H | []]]]]]]; discriminate H. }
  split; [exact H |].
  exact (proj2 (proj2 (proj2 (proj2 (proj2 (proj2 getStrokeWidth_table))))) _ H).
Defined.

(** Every stroke width is one of the seven values of the table. *)
Lemma getStrokeWidth_values (speed : string) :
  In (getStrokeWidth speed) [0.5; 1; 2; 4; 6; 8; 0].
Proof.
  unfold getStrokeWidth.
  repeat match goal with
         | |- context [String.eqb speed ?s] => destruct (String.eqb speed s)
         end; simpl; tauto.
Qed.

(** C8, as the specification states it, fails: the built-in table does not
    have seven entries. *)
Lemma DEFAULT_COLORS_not_seven_entries :
  ~ (size (fetchRenderData_colors None) = 7%nat /\
     dom (fetchRenderData_colors None)
     = list_to_set [-1; 0; 1000000; 10000000; 25000000; 50000000; 75000000; 100000000]%Z).
Proof. intros [Hsize _]. vm_compute in Hsize. discriminate. Qed.

(** C8 (amended): without a color configuration the built-in table is used;
    it has eight entries, whose thresholds are exactly -1, 0, 1e6, 1e7, 2.5e7,
    5e7, 7.5e7 and 1e8. *)
Theorem DEFAULT_COLORS_eight_entries :
  fetchRenderData_colors None = DEFAULT_COLORS /\
  size DEFAULT_COLORS = 8%nat /\
  forall k : Z,
    k ∈ dom DEFAULT_COLORS <->
    k ∈ [-1; 0; 1000000; 10000000; 25000000; 50000000; 75000000; 100000000]%Z.
Proof.
  split; [reflexivity | split; [reflexivity |]].
  intros k. unfold DEFAULT_COLORS.
  rewrite dom_list_to_map_L. simpl. set_solver.
Qed.

(** A supplied configuration is used as it is, also when it is empty. *)
Lemma fetchRenderData_colors_supplied (colors : ColorDefinition) :
  fetchRenderData_colors (Some colors) = colors.
Proof. reflexivity. Qed.

(* ===================================================================== *)
(** * The color of a traffic value *)
(* ===================================================================== *)

(** What [getStrokeColor] gives on the built-in table, band by band. *)
Example getStrokeColor_default_bands :
  map (fun t => getStrokeColor t DEFAULT_COLORS)
      [-1; 1000000; 9999999; 10000000; 25000000; 50000000; 75000000; 100000000; 5000000000]
  = ["#cccccc"; "#0000ff"; "#0000ff"; "#00cccc"; "#00ff00"; "#cccc00"; "#ee7000"; "#ff0000"; "#ff0000"].
Proof. vm_compute. reflexivity. Qed.

(** Below every threshold the color of the least threshold is used, and an
    empty object gives black. *)
Example getStrokeColor_fallbacks :
  getStrokeColor (-5) DEFAULT_COLORS = "#cccccc" /\
  getStrokeColor 5 (<[10%Z := "#111111"]> (<[20%Z := "#222222"]> ∅)) = "#111111" /\
  getStrokeColor 5 ∅ = "#000000".
Proof. vm_compute. auto. Qed.

(** The thresholds of the built-in table as [getStrokeColor] sorts them. *)
Lemma sortedSpeeds_default :
  sort (fun a b => b - a) (parsedKeys DEFAULT_COLORS)
  = [100000000; 75000000; 50000000; 25000000; 10000000; 1000000; 0; -1].
Proof. vm_compute. reflexivity. Qed.

Ltac split_on_thresholds t :=
  repeat match goal with
         | |- context [?c <=? t] => destruct (c <=? t)
         end.

(** On the built-in table [getStrokeColor] is this step function of the
    traffic, whatever number the traffic is: from 1e6 upwards the color of the
    largest threshold that is at most the traffic, and the color of -1 below. *)
Lemma getStrokeColor_default (t : float) :
  getStrokeColor t DEFAULT_COLORS =
  if 100000000 <=? t then "#ff0000"
  else if 75000000 <=? t then "#ee7000"
  else if 50000000 <=? t then "#cccc00"
  else if 25000000 <=? t then "#00ff00"
  else if 10000000 <=? t then "#00cccc"
  else if 1000000 <=? t then "#0000ff"
  else "#cccccc".
Proof.
  unfold getStrokeColor. rewrite sortedSpeeds_default. cbn [List.find].
  split_on_thresholds t; vm_compute; reflexivity.
Qed.

(** C1: the band of the threshold 0 is never selected when a lower threshold
    is present.  For 500,000 bps on the built-in table the largest threshold
    that is at most the traffic is 0, whose color is black; the threshold
    found is falsy in [speed || ...], so the least threshold -1 is looked up
    and the color of an inactive link is returned.  No traffic at all gets
    the color that the built-in table gives to the threshold 0. *)
Theorem getStrokeColor_zero_band_skipped :
  DEFAULT_COLORS !! 0%Z = Some "#000000" /\
  DEFAULT_COLORS !! (-1)%Z = Some "#cccccc" /\
  (of_Z 0 <=? 500000) = true /\
  (of_Z 1000000 <=? 500000) = false /\
  getStrokeColor 500000 DEFAULT_COLORS = "#cccccc" /\
  getStrokeColor 0 DEFAULT_COLORS = "#cccccc" /\
  forall t : float, getStrokeColor t DEFAULT_COLORS <> "#000000".
Proof.
  repeat (split; [vm_compute; reflexivity |]).
  intros t. rewrite getStrokeColor_default.
  split_on_thresholds t; discriminate.
Qed.

(* ===================================================================== *)
(** * The end-to-end scenario *)
(* ===================================================================== *)

(** C2, as the specification states it, fails: 1,000,000,000 bps is not in
    the band of 5e7, and the two arrows do not differ in color. *)
Lemma scenario_colors_not_distinct :
  ~ (getStrokeColor (ConnectionData.outboundTraffic Scenario.link)
       (RenderData.colors Scenario.data) = "#ff0000" /\
     getStrokeColor (ConnectionData.inboundTraffic Scenario.link)
       (RenderData.colors Scenario.data) = "#cccc00" /\
     getStrokeColor (ConnectionData.outboundTraffic Scenario.link)
       (RenderData.colors Scenario.data)
     <> getStrokeColor (ConnectionData.inboundTraffic Scenario.link)
          (RenderData.colors Scenario.data)).
Proof. intros (_ & Hin & _). vm_compute in Hin. discriminate. Qed.

(** C2 (amended): in the scenario the stroke width is 4, the vertical-overlap
    rule is active (the spans are 200 > 48 and 0 < 192), both arrows have the
    color '#ff0000' of the band of 1e8 (so one marker is defined), and the
    labels read "5.00 Gbps" and "1.00 Gbps". *)
Theorem scenario_rendering :
  let c := Scenario.link in
  let colors := RenderData.colors Scenario.data in
  Link.strokeWidth c = 4 /\
  Link.spanY c = 200 /\ (48 <? Link.spanY c) = true /\
  Link.spanX c = 0 /\ (Link.spanX c <? 192) = true /\
  Link.overlap c = true /\
  getStrokeColor (ConnectionData.outboundTraffic c) colors = "#ff0000" /\
  getStrokeColor (ConnectionData.inboundTraffic c) colors = "#ff0000" /\
  formatTraffic (ConnectionData.outboundTraffic c) = "5.00 Gbps" /\
  formatTraffic (ConnectionData.inboundTraffic c) = "1.00 Gbps" /\
  arrowElements (renderConnection c colors) =
    [ q "<path d='M 100 100 L 100 200' stroke='#ff0000' stroke-width='4' marker-end='url(#arrow-ff0000)'/>";
      q "<path d='M 100 300 L 100 200' stroke='#ff0000' stroke-width='4' marker-end='url(#arrow-ff0000)'/>" ] /\
  labelElements (renderConnection c colors) =
    [ q "<rect x='64' y='155' width='72' height='18' fill='#ffffff' stroke='#000000' stroke-miterlimit='10'/>
<text x='100' y='170' text-anchor='middle' font-size='12' fill='#000000' stroke='none'>5.00 Gbps</text>";
      q "<rect x='64' y='227' width='72' height='18' fill='#ffffff' stroke='#000000' stroke-miterlimit='10'/>
<text x='100' y='242' text-anchor='middle' font-size='12' fill='#000000' stroke='none'>1.00 Gbps</text>" ] /\
  Set_of (render_defsElements Scenario.data) = [ createArrowMarker "#ff0000" ].
Proof. vm_compute. auto 14. Qed.

(* ===================================================================== *)
(** * The anchors of the traffic labels *)
(* ===================================================================== *)

(** C4: the two labels are anchored at the middle of the link moved along the
    unit direction vector, the outbound one against it and the inbound one
    along it, by [72 / 2 + 8 + strokeWidth * 6]; exactly when the vertical
    span is above 48 and the horizontal span below 192 the distance is
    [(12 + strokeWidth * 6) / |u.y|] instead.  The middle, the spans and the
    direction are those of the end points of the connection. *)
Theorem label_anchor_rule (c : ConnectionData.t) (colors : ColorDefinition) :
  let x1 := ConnectionData.from_x c in
  let y1 := ConnectionData.from_y c in
  let x2 := ConnectionData.to_x c in
  let y2 := ConnectionData.to_y c in
  let mx := x1 + (x2 - x1) / 2 in
  let my := y1 + (y2 - y1) / 2 in
  let length := sqrt ((x2 - x1) * (x2 - x1) + (y2 - y1) * (y2 - y1)) in
  let ux := (x2 - x1) / length in
  let uy := (y2 - y1) / length in
  let strokeWidth := getStrokeWidth (ConnectionData.speed c) in
  let offset :=
    if (48 <? abs (y2 - y1)) && (abs (x2 - x1) <? 192)
    then (12 + strokeWidth * 6) / abs uy
    else 72 / 2 + 8 + strokeWidth * 6 in
  Link.outboundTrafficLabelX c = mx - ux * offset /\
  Link.outboundTrafficLabelY c = my - uy * offset /\
  Link.inboundTrafficLabelX c = mx + ux * offset /\
  Link.inboundTrafficLabelY c = my + uy * offset /\
  labelElements (renderConnection c colors) =
    [ renderTraffic (mx - ux * offset) (my - uy * offset)
        (ConnectionData.outboundTraffic c) 12;
      renderTraffic (mx + ux * offset) (my + uy * offset)
        (ConnectionData.inboundTraffic c) 12 ].
Proof.
  cbv zeta.
  unfold renderConnection, Link.outboundTrafficLabelX, Link.outboundTrafficLabelY,
    Link.inboundTrafficLabelX, Link.inboundTrafficLabelY, Link.overlap, Link.factor,
    Link.trafficTextWidth, Link.middleX, Link.middleY, Link.spanX, Link.spanY,
    Link.normalizedVectorX, Link.normalizedVectorY, Link.length, Link.strokeWidth;
    cbn [labelElements].
  destruct ((48 <? abs (ConnectionData.to_y c - ConnectionData.from_y c))
            && (abs (ConnectionData.to_x c - ConnectionData.from_x c) <? 192)); auto.
Qed.

(** The rule at its boundary: a vertical span of exactly 48, or a horizontal
    span of exactly 192, keeps the default distance. *)
Example overlap_boundary :
  let mk x y := {| ConnectionData.from_x := 0; ConnectionData.from_y := 0;
                   ConnectionData.to_x := x; ConnectionData.to_y := y;
                   ConnectionData.speed := "1G";
                   ConnectionData.outboundTraffic := 0; ConnectionData.inboundTraffic := 0 |} in
  Link.overlap (mk 0 48) = false /\ Link.overlap (mk 0 49) = true /\
  Link.overlap (mk 192 100) = false /\ Link.overlap (mk 191 100) = true /\
  Link.overlap (mk (-191) (-100)) = true.
Proof. vm_compute. auto. Qed.

(* ===================================================================== *)
(** * Connections of no length *)
(* ===================================================================== *)

(** C5, as the specification states it, fails: when both ends coincide the
    direction vector is 0 / 0 in both coordinates, which is not a zero. *)
Lemma coincident_direction_not_zero :
  ~ (is_zero (Link.normalizedVectorX Scenario.self_link) = true /\
     is_zero (Link.normalizedVectorY Scenario.self_link) = true).
Proof. intros [H _]. vm_compute in H. discriminate. Qed.

(** C5 (amended): for a connection whose ends coincide at finite coordinates
    the computation goes through: the length is 0, both coordinates of the
    direction vector are NaN, and so are the anchors of both labels; the two
    arrows coincide, both paths going from the shared point to the middle,
    which is written like the shared point itself. *)
Theorem coincident_endpoints (c : ConnectionData.t) (colors : ColorDefinition) :
  is_finite (ConnectionData.from_x c) = true ->
  is_finite (ConnectionData.from_y c) = true ->
  ConnectionData.to_x c = ConnectionData.from_x c ->
  ConnectionData.to_y c = ConnectionData.from_y c ->
  Link.length c = 0 /\
  Link.normalizedVectorX c = nan /\ Link.normalizedVectorY c = nan /\
  labelElements (renderConnection c colors) =
    [ renderTraffic nan nan (ConnectionData.outboundTraffic c) 12;
      renderTraffic nan nan (ConnectionData.inboundTraffic c) 12 ] /\
  exists x y outboundColor inboundColor w,
    x = toString (ConnectionData.from_x c) /\ y = toString (ConnectionData.from_y c) /\
    arrowElements (renderConnection c colors) =
      [ q "<path d='M " +:+ x +:+ " " +:+ y +:+ " L " +:+ x +:+ " " +:+ y +:+
          q "' stroke='" +:+ outboundColor +:+ q "' stroke-width='" +:+ w +:+
          q "' marker-end='url(#" +:+ getArrowMarkerId outboundColor +:+ q ")'/>";
        q "<path d='M " +:+ x +:+ " " +:+ y +:+ " L " +:+ x +:+ " " +:+ y +:+
          q "' stroke='" +:+ inboundColor +:+ q "' stroke-width='" +:+ w +:+
          q "' marker-end='url(#" +:+ getArrowMarkerId inboundColor +:+ q ")'/>" ].
Proof.
  intros Hx Hy Ex Ey.
  assert (Hlen : Link.length c = 0).
  { unfold Link.length. rewrite Ex, Ey, !sub_diag by assumption. reflexivity. }
  assert (Hux : Link.normalizedVectorX c = nan).
  { unfold Link.normalizedVectorX. rewrite Hlen, Ex, sub_diag by assumption. reflexivity. }
  assert (Huy : Link.normalizedVectorY c = nan).
  { unfold Link.normalizedVectorY. rewrite Hlen, Ey, sub_diag by assumption. reflexivity. }
  assert (Hov : Link.overlap c = false).
  { unfold Link.overlap, Link.spanY. rewrite Ey, sub_diag by assumption. reflexivity. }
  repeat split; try assumption.
  - unfold renderConnection; cbn [labelElements].
    unfold Link.outboundTrafficLabelX, Link.outboundTrafficLabelY,
      Link.inboundTrafficLabelX, Link.inboundTrafficLabelY.
    now rewrite Hov, Hux, Huy, !mul_nan_l, !sub_nan_r, !add_nan_r.
  - do 2 eexists.
    exists (getStrokeColor (ConnectionData.outboundTraffic c) colors),
      (getStrokeColor (ConnectionData.inboundTraffic c) colors),
      (toString (Link.strokeWidth c)).
    split; [reflexivity | split; [reflexivity |]].
    unfold renderConnection; cbn [arrowElements]. unfold arrowPath.
    assert (Mx : toString (Link.middleX c) = toString (ConnectionData.from_x c)).
    { unfold Link.middleX. rewrite Ex, sub_diag by assumption.
      change (0 / 2) with 0. now apply toString_add_zero. }
    assert (My : toString (Link.middleY c) = toString (ConnectionData.from_y c)).
    { unfold Link.middleY. rewrite Ey, sub_diag by assumption.
      change (0 / 2) with 0. now apply toString_add_zero. }
    rewrite Mx, My, Ex, Ey. reflexivity.
Qed.

(** The connection of the router to itself. *)
Lemma coincident_endpoints_witness :
  (is_finite (ConnectionData.from_x Scenario.self_link) = true /\
   is_finite (ConnectionData.from_y Scenario.self_link) = true /\
   ConnectionData.to_x Scenario.self_link = ConnectionData.from_x Scenario.self_link /\
   ConnectionData.to_y Scenario.self_link = ConnectionData.from_y Scenario.self_link) /\
  Link.length Scenario.self_link = 0 /\
  Link.normalizedVectorX Scenario.self_link = nan /\
  Link.normalizedVectorY Scenario.self_link = nan.
Proof.
  split; [repeat split |].
  destruct (coincident_endpoints Scenario.self_link DEFAULT_COLORS
              eq_refl eq_refl eq_refl eq_refl) as (Hl & Hx & Hy & _).
  repeat split; assumption.
Defined.

(** What is drawn for it: two arrows of no length and two labels at NaN. *)
Example self_link_rendering :
  arrowElements (renderConnection Scenario.self_link DEFAULT_COLORS) =
    [ q "<path d='M 100 100 L 100 100' stroke='#0000ff' stroke-width='2' marker-end='url(#arrow-0000ff)'/>";
      q "<path d='M 100 100 L 100 100' stroke='#cccccc' stroke-width='2' marker-end='url(#arrow-cccccc)'/>" ] /\
  labelElements (renderConnection Scenario.self_link DEFAULT_COLORS) =
    [ q "<rect x='NaN' y='NaN' width='72' height='18' fill='#ffffff' stroke='#000000' stroke-miterlimit='10'/>
<text x='NaN' y='NaN' text-anchor='middle' font-size='12' fill='#000000' stroke='none'>5.00 Mbps</text>";
      q "<rect x='NaN' y='NaN' width='72' height='18' fill='#ffffff' stroke='#000000' stroke-miterlimit='10'/>
<text x='NaN' y='NaN' text-anchor='middle' font-size='12' fill='#000000' stroke='none'>Inactive</text>" ].
Proof. vm_compute. auto. Qed.

(* ===================================================================== *)
(** * Traffic labels *)
(* ===================================================================== *)

Section FormatTraffic.

Variable t : float.

Lemma formatTraffic_inactive :
  (t <? 0) = true -> formatTraffic t = "Inactive".
Proof. intros H. unfold formatTraffic. now rewrite H. Qed.

Lemma formatTraffic_kbps :
  (0 <=? t) = true -> (t <? 100000) = true ->
  formatTraffic t = toFixed (t / 1000) 2 +:+ " kbps" /\
  fixed_notation 2 (toFixed (t / 1000) 2).
Proof.
  intros H0 H1. apply leb_not_ltb in H0. split.
  - unfold formatTraffic. now rewrite H0, H1.
  - assert (Hq : (t / 1000 <? 0) = false /\ (t / 1000 <? 1e21) = true).
    { apply small_exponent.
      destruct (div_bounded t 100000 1000 _ _ (-36) (-43) eq_refl eq_refl
                  ltac:(lia) ltac:(unfold emax, prec; lia) H0 H1)
        as [Hz | (m & e & E & He)]; [now left |].
      right. exists m, e. split; [assumption | lia]. }
    apply toFixed_notation; [lia | apply Hq | apply Hq].
Qed.

Lemma formatTraffic_Mbps :
  (100000 <=? t) = true -> (t <? 100000000) = true ->
  formatTraffic t = toFixed (t / 1000000) 2 +:+ " Mbps" /\
  fixed_notation 2 (toFixed (t / 1000000) 2).
Proof.
  intros H0 H1.
  pose proof (leb_finite 100000 t _ _ eq_refl H0) as Ht.
  assert (Hneg : (t <? 0) = false).
  { apply (ltb_lower t 0 _ _ Ht eq_refl). exact I. }
  split.
  - unfold formatTraffic. now rewrite Hneg, (leb_not_ltb _ _ H0), H1.
  - assert (Hq : (t / 1000000 <? 0) = false /\ (t / 1000000 <? 1e21) = true).
    { apply small_exponent.
      destruct (div_bounded t 100000000 1000000 _ _ (-26) (-33) eq_refl eq_refl
                  ltac:(lia) ltac:(unfold emax, prec; lia) Hneg H1)
        as [Hz | (m & e & E & He)]; [now left |].
      right. exists m, e. split; [assumption | lia]. }
    apply toFixed_notation; [lia | apply Hq | apply Hq].
Qed.

Lemma formatTraffic_Gbps :
  (100000000 <=? t) = true ->
  formatTraffic t = toFixed (t / 1000000000) 2 +:+ " Gbps" /\
  ((t / 1000000000 <? 1e21) = true -> fixed_notation 2 (toFixed (t / 1000000000) 2)).
Proof.
  intros H0.
  pose proof (leb_finite 100000000 t _ _ eq_refl H0) as Ht.
  assert (Hneg : (t <? 0) = false).
  { apply (ltb_lower t 0 _ _ Ht eq_refl). exact I. }
  assert (Hk : (t <? 100000) = false).
  { apply (ltb_lower t 100000 _ _ Ht eq_refl). vm_compute. reflexivity. }
  split.
  - unfold formatTraffic. now rewrite Hneg, Hk, (leb_not_ltb _ _ H0).
  - intros H21. apply toFixed_notation; [lia | | assumption].
    apply (div_positive t 1000000000 _ _ eq_refl).
    destruct Ht as [-> | (m & e & -> & _)]; eauto.
Qed.

End FormatTraffic.


(** C3, as the specification states it, fails: 99,999 bps is 99.999 kbps,
    which [toFixed] rounds to the nearest hundredth, upwards here. *)
Lemma formatTraffic_99999_rounds_up : formatTraffic 99999 <> "99.99 kbps".
Proof. vm_compute. discriminate. Qed.

(** C3 (amended): a negative traffic is labelled "Inactive"; from 0 up to
    100,000 bps the label is the traffic divided by 1e3, written by [toFixed]
    with two decimals, and " kbps"; from 100,000 up to 100,000,000 bps it is
    the traffic divided by 1e6 and " Mbps"; from 100,000,000 bps on it is the
    traffic divided by 1e9 and " Gbps", written with two decimals as long as
    the quotient is below 1e21.  The labels of 99999, 100000, 100000000 and
    -1 are "100.00 kbps", "0.10 Mbps", "0.10 Gbps" and "Inactive". *)
Theorem formatTraffic_units (t : float) :
  ((t <? 0) = true -> formatTraffic t = "Inactive") /\
  ((0 <=? t) = true -> (t <? 100000) = true ->
   formatTraffic t = toFixed (t / 1000) 2 +:+ " kbps" /\
   fixed_notation 2 (toFixed (t / 1000) 2)) /\
  ((100000 <=? t) = true -> (t <? 100000000) = true ->
   formatTraffic t = toFixed (t / 1000000) 2 +:+ " Mbps" /\
   fixed_notation 2 (toFixed (t / 1000000) 2)) /\
  ((100000000 <=? t) = true ->
   formatTraffic t = toFixed (t / 1000000000) 2 +:+ " Gbps" /\
   ((t / 1000000000 <? 1e21) = true -> fixed_notation 2 (toFixed (t / 1000000000) 2))) /\
  formatTraffic 99999 = "100.00 kbps" /\
  formatTraffic 100000 = "0.10 Mbps" /\
  formatTraffic 100000000 = "0.10 Gbps" /\
  formatTraffic (-1) = "Inactive".
Proof.
  split; [apply formatTraffic_inactive |].
  split; [apply formatTraffic_kbps |].
  split; [apply formatTraffic_Mbps |].
  split; [apply formatTraffic_Gbps |].
  vm_compute. auto.
Qed.

(** The three units at 1,500 bps, 2,500,000 bps and 5,000,000,000 bps. *)
Lemma formatTraffic_units_witness :
  (formatTraffic 1500 = "1.50 kbps" /\ fixed_notation 2 (toFixed (1500 / 1000) 2)) /\
  (formatTraffic 2500000 = "2.50 Mbps" /\ fixed_notation 2 (toFixed (2500000 / 1000000) 2)) /\
  (formatTraffic 5000000000 = "5.00 Gbps" /\
   fixed_notation 2 (toFixed (5000000000 / 1000000000) 2)).
Proof.
  split; [| split].
  - destruct (formatTraffic_units 1500) as (_ & H & _).
    destruct (H eq_refl eq_refl) as [_ Hn]. split; [reflexivity | exact Hn].
  - destruct (formatTraffic_units 2500000) as (_ & _ & H & _).
    destruct (H eq_refl eq_refl) as [_ Hn]. split; [reflexivity | exact Hn].
  - destruct (formatTraffic_units 5000000000) as (_ & _ & _ & H & _).
    destruct (H eq_refl) as [_ Hn]. split; [reflexivity | exact (Hn eq_refl)].
Defined.

(** Beyond the reach of fixed notation the label is written by [toString],
    and a traffic that is not a number is labelled in Gbps. *)
Example formatTraffic_beyond_fixed_notation :
  formatTraffic 1267650600228229401496703205376 = "1.2676506002282295e+21 Gbps" /\
  formatTraffic infinity = "Infinity Gbps" /\
  formatTraffic nan = "NaN Gbps".
Proof. vm_compute. auto. Qed.

(* ===================================================================== *)
(** * Marker definitions *)
(* ===================================================================== *)

(** C10: every arrow of the document ends in a [marker-end] attribute that
    refers to the id 'arrow-' followed by the arrow's color without its first
    '#'; the marker of that color is among the marker definitions, carries
    exactly that id, and stands in the [defs] block of the document. *)
Theorem marker_references_resolve (rd : RenderData.t) (now : string) (a : string) :
  In a (render_arrowElements rd) ->
  exists color,
    In a (render_elements rd now) /\
    (exists path,
        a = q "<path d='M " +:+ path +:+ q "' marker-end='url(#" +:+
            getArrowMarkerId color +:+ q ")'/>") /\
    getArrowMarkerId color = "arrow-" +:+ remove_first "#" color /\
    In (createArrowMarker color) (Set_of (render_defsElements rd)) /\
    (exists attributes,
        createArrowMarker color =
        q "<marker id='" +:+ getArrowMarkerId color +:+ q "'" +:+ attributes) /\
    (exists head before after tail,
        render rd now =
        head +:+ "<defs>" +:+ before +:+ createArrowMarker color +:+ after +:+ "
</defs>" +:+ tail).
Proof.
  intros Ha.
  assert (Hel : In a (render_elements rd now)).
  { unfold render_elements. rewrite !in_app_iff. tauto. }
  apply render_arrowElements_In in Ha as (c & Hc & Ha).
  assert (Hcolor : exists t x y,
             (t = ConnectionData.outboundTraffic c \/ t = ConnectionData.inboundTraffic c) /\
             a = arrowPath x y (Link.middleX c) (Link.middleY c)
                   (getStrokeColor t (RenderData.colors rd)) (Link.strokeWidth c)
                   (getArrowMarkerId (getStrokeColor t (RenderData.colors rd)))).
  { unfold renderConnection in Ha; cbn [arrowElements] in Ha.
    destruct Ha as [<- | [<- | []]].
    - exists (ConnectionData.outboundTraffic c), (ConnectionData.from_x c),
        (ConnectionData.from_y c).
      split; [left |]; reflexivity.
    - exists (ConnectionData.inboundTraffic c), (ConnectionData.to_x c),
        (ConnectionData.to_y c).
      split; [right |]; reflexivity. }
  destruct Hcolor as (t & x & y & Ht & ->).
  set (color := getStrokeColor t (RenderData.colors rd)).
  assert (Hdef : In (createArrowMarker color) (Set_of (render_defsElements rd))).
  { apply Set_of_In. now apply (marker_collected rd c t). }
  exists color. repeat split; try assumption.
  - exists (toString x +:+ " " +:+ toString y +:+ " L " +:+ toString (Link.middleX c) +:+ " " +:+
            toString (Link.middleY c) +:+ q "' stroke='" +:+ color +:+ q "' stroke-width='" +:+
            toString (Link.strokeWidth c)).
    unfold arrowPath. now rewrite !append_assoc.
  - exists (q " viewBox='0 0 10 10' refX='8' refY='5' markerWidth='6' markerHeight='6' markerUnits='strokeWidth' orient='auto-start-reverse' fill='" +:+
            color +:+ q "'><use xlink:href='#arrow-marker'/></marker>").
    reflexivity.
  - destruct renderToSvg_blocks as [icons Hdoc].
    destruct (join_In "
  " _ _ Hdef) as (before & after & Hjoin).
    exists (document_prologue (RenderData.width rd) (RenderData.height rd)).
    exists (icons +:+ before), after.
    exists ("
<title>" +:+ xmlescape (RenderData.title rd) +:+ "</title>
" +:+ join "
" (render_elements rd now) +:+ "
</svg>").
    unfold render. rewrite Hdoc, Hjoin. now rewrite !append_assoc.
Qed.

(** The outbound arrow of the scenario and its marker. *)
Lemma marker_references_resolve_witness :
  In (arrowPath 100 100 100 200 "#ff0000" 4 "arrow-ff0000")
     (render_arrowElements Scenario.data) /\
  exists color,
    In (createArrowMarker color) (Set_of (render_defsElements Scenario.data)) /\
    exists head before after tail,
      render Scenario.data Scenario.clock =
      head +:+ "<defs>" +:+ before +:+ createArrowMarker color +:+ after +:+ "
</defs>" +:+ tail.
Proof.
  assert (H : In (arrowPath 100 100 100 200 "#ff0000" 4 "arrow-ff0000")
                 (render_arrowElements Scenario.data)).
  { left. vm_compute. reflexivity. }
  split; [exact H |].
  destruct (marker_references_resolve Scenario.data Scenario.clock _ H)
    as (color & _ & _ & _ & Hdef & _ & Hdoc).
  exists color. split; assumption.
Defined.

(* ===================================================================== *)
(** * The clock *)
(* ===================================================================== *)

(** C9: the clock reading reaches the document through the timestamp element
    alone: the text before it and the text after it are fixed by the
    [RenderData], so two calls on the same input differ at most in that
    element. *)
Theorem render_deterministic_but_timestamp (rd : RenderData.t) :
  exists before after : string,
    forall now : string, render rd now = before +:+ renderDate rd now +:+ after.
Proof.
  destruct renderToSvg_blocks as [icons Hdoc].
  set (fixed :=
         [ renderBackground (RenderData.width rd) (RenderData.height rd);
           renderDiagramTitle (RenderData.title rd) 24 ]
         ++ map renderSite (RenderData.sites rd)
         ++ render_arrowElements rd
         ++ render_labelElements rd
         ++ map renderDevice (RenderData.devices rd)).
  assert (Hel : forall now, render_elements rd now = fixed ++ [renderDate rd now]).
  { intros now. unfold render_elements, fixed. now rewrite <- !app_assoc. }
  exists (document_prologue (RenderData.width rd) (RenderData.height rd) +:+ "<defs>" +:+
          icons +:+ join "
  " (Set_of (render_defsElements rd)) +:+ "
</defs>" +:+ "
<title>" +:+ xmlescape (RenderData.title rd) +:+ "</title>
" +:+ join "
" fixed +:+ "
").
  exists "
</svg>". intros now. unfold render.
  rewrite Hdoc, Hel. unfold fixed.
  match goal with
  | |- context [join ?sep (([?x; ?y] ++ ?l) ++ [?d])] =>
      change (([x; y] ++ l) ++ [d]) with ((x :: (y :: l)) ++ [d]);
      rewrite (join_snoc sep (y :: l) x d)
  end.
  now rewrite !append_assoc.
Qed.

(* ===================================================================== *)
(** * The color bands of any table *)
(* ===================================================================== *)

(** The thresholds of a color table are integers; a number holds an integer
    below 2^53 in absolute value exactly, so that [parseInt] of its spelling,
    the comparator of the sort, the truth value and the property key of the
    number are those of the integer. *)
Section SafeIntegers.
Local Open Scope Z_scope.

Lemma Zdigits2_lower (m : Z) : 0 < m -> 2 ^ (Zdigits2 m - 1) <= m.
Proof.
  destruct m as [| p | p]; simpl; intros H; try lia.
  rewrite digits2_size.
  assert (Hle : 2 ^ Zpos (Pos.size p) <= 2 * Zpos p).
  { rewrite <- Pos2Z.inj_pow. apply Pos2Z.pos_le_pos, Pos.size_le. }
  replace (Zpos (Pos.size p)) with (Zpos (Pos.size p) - 1 + 1) in Hle by lia.
  rewrite Z.pow_add_r, Z.pow_1_r in Hle by lia. lia.
Qed.

Lemma Zdigits2_unique (m d : Z) : 0 < m -> 2 ^ (d - 1) <= m < 2 ^ d -> Zdigits2 m = d.
Proof.
  intros Hm [Hlo Hhi].
  assert (Hd : 0 <= d).
  { destruct (Z.le_gt_cases 0 d); [assumption |]. rewrite Z.pow_neg_r in Hhi; lia. }
  pose proof (Zdigits2_le m d ltac:(lia) Hd Hhi).
  pose proof (Zdigits2_gt m ltac:(lia)) as Hg.
  pose proof (Zdigits2_nonneg m).
  assert (2 ^ (d - 1) < 2 ^ Zdigits2 m) by lia.
  destruct (Z.le_gt_cases 1 d).
  - apply Z.pow_lt_mono_r_iff in H1; lia.
  - assert (d = 0) by lia. subst. rewrite Z.pow_0_r in Hhi. lia.
Qed.

Lemma Zdigits2_mul_pow2 (m p : Z) :
  0 < m -> 0 <= p -> Zdigits2 (m * 2 ^ p) = Zdigits2 m + p.
Proof.
  intros Hm Hp.
  pose proof (Zdigits2_lower m Hm) as Hlo.
  pose proof (Zdigits2_gt m ltac:(lia)) as Hhi.
  assert (H1 : 1 <= Zdigits2 m).
  { destruct m; simpl in *; lia. }
  assert (0 < 2 ^ p) by (apply Z.pow_pos_nonneg; lia).
  apply Zdigits2_unique; [nia |].
  replace (Zdigits2 m + p - 1) with (Zdigits2 m - 1 + p) by lia.
  rewrite !Z.pow_add_r by lia. nia.
Qed.

Lemma iter_xO (m p : positive) : Zpos (Pos.iter xO m p) = Zpos m * 2 ^ Zpos p.
Proof.
  induction p as [| p IH] using Pos.peano_ind.
  - simpl. lia.
  - rewrite Pos.iter_succ, Pos2Z.inj_xO, IH, Pos2Z.inj_succ, Z.pow_succ_r by lia. lia.
Qed.

(** Rounding leaves a mantissa of 53 digits as it is. *)
Lemma binary_round_aux_exact (s : bool) (m : positive) (e : Z) :
  Zdigits2 (Zpos m) = prec -> SpecFloat.emin prec emax <= e <= emax - prec ->
  binary_round_aux prec emax s (Zpos m) e loc_Exact = S754_finite s m e.
Proof.
  intros Hd He. unfold binary_round_aux, shr_fexp. rewrite Hd.
  assert (E : fexp prec emax (prec + e) - e = 0).
  { unfold fexp, SpecFloat.emin, prec, emax in *. lia. }
  rewrite E. cbn [shr shr_record_of_loc shr_m loc_of_shr_record round_nearest_even].
  rewrite Hd, E. cbn [shr shr_record_of_loc shr_m].
  destruct (Z.leb_spec e (emax - prec)); [reflexivity | lia].
Qed.

(** The number of a nonzero integer of fewer than 54 bits: the integer
    itself, its mantissa shifted to 53 digits. *)
Lemma binary_normalize_exact (k : Z) :
  k <> 0 -> Z.abs k < 2 ^ 53 ->
  exists m e,
    binary_normalize prec emax k 0 false = S754_finite (k <? 0) m e /\
    -52 <= e <= 0 /\ Zpos m = Z.abs k * 2 ^ (- e) /\ Zdigits2 (Zpos m) = prec.
Proof.
  intros Hk Hlt.
  assert (Hgen : forall (s : bool) (p : positive),
             Zpos p < 2 ^ 53 ->
             exists m e, binary_round prec emax s p 0 = S754_finite s m e /\
                         -52 <= e <= 0 /\ Zpos m = Zpos p * 2 ^ (- e) /\
                         Zdigits2 (Zpos m) = prec).
  { intros s p Hp. unfold binary_round.
    pose proof (Zdigits2_le (Zpos p) 53 ltac:(lia) ltac:(lia) Hp) as Hd.
    assert (Hd1 : 1 <= Zdigits2 (Zpos p)) by (simpl; lia).
    change (Zpos (digits2_pos p)) with (Zdigits2 (Zpos p)).
    set (d := Zdigits2 (Zpos p)) in *.
    assert (Ef : fexp prec emax (d + 0) = d - 53).
    { unfold fexp, SpecFloat.emin, prec, emax. lia. }
    rewrite Ef. unfold shl_align.
    destruct (d - 53 - 0) as [| q | q] eqn:Eq; try lia.
    - exists p, 0. split; [| split; [lia | split]].
      + apply binary_round_aux_exact; unfold SpecFloat.emin, prec, emax in *; lia.
      + simpl. lia.
      + unfold prec. fold d. lia.
    - exists (Pos.iter xO p q), (d - 53).
      assert (Hq : Zpos q = 53 - d) by lia.
      assert (Hm : Zpos (Pos.iter xO p q) = Zpos p * 2 ^ (53 - d)).
      { rewrite iter_xO. now rewrite Hq. }
      assert (Hdm : Zdigits2 (Zpos (Pos.iter xO p q)) = prec).
      { rewrite Hm, Zdigits2_mul_pow2 by lia. fold d. unfold prec. lia. }
      split; [| split; [lia | split]].
      + apply binary_round_aux_exact; [assumption |].
        unfold SpecFloat.emin, prec, emax in *; lia.
      + rewrite Hm. f_equal. f_equal. lia.
      + assumption. }
  destruct k as [| p | p]; [lia | |]; simpl binary_normalize.
  - destruct (Hgen false p Hlt) as (m & e & H). exists m, e. exact H.
  - destruct (Hgen true p Hlt) as (m & e & H). exists m, e. exact H.
Qed.

Lemma of_Z_finite (k : Z) :
  k <> 0 -> Z.abs k < 2 ^ 53 ->
  exists m e,
    Prim2SF (of_Z k) = S754_finite (k <? 0) m e /\
    -52 <= e <= 0 /\ Zpos m = Z.abs k * 2 ^ (- e).
Proof.
  intros Hk Hlt.
  destruct (binary_normalize_exact k Hk Hlt) as (m & e & E & He & Hm & Hd).
  exists m, e. split; [| auto]. unfold of_Z. rewrite E.
  apply Prim2SF_SF2Prim. unfold valid_binary, bounded, canonical_mantissa.
  change (Zpos (digits2_pos m)) with (Zdigits2 (Zpos m)). rewrite Hd.
  apply andb_true_iff. split.
  - apply Z.eqb_eq. unfold fexp, SpecFloat.emin, prec, emax. lia.
  - apply Z.leb_le. unfold prec, emax. lia.
Qed.

Lemma of_Z_zero : Prim2SF (of_Z 0) = S754_zero false.
Proof. reflexivity. Qed.

(** The property key of the number of an integer below 2^53: the middle of
    the numbers that round to [v * 2 ^ a] is the integer [v], and they are
    less than one half away from it, so that the shortest decimal among them
    is [v] itself, without its final zeros. *)
Section PropertyKeys.

(** When a key is found the text that [toString] writes is its spelling. *)
Lemma positive_toString_integer (m : positive) (e : Z) (d k n : Z) :
  shortest_decimal m e = (d, k, n) -> (k <=? n) && (n <=? 21) = true ->
  positive_toString m e = digits d +:+ zeros (Z.to_nat (n - k)).
Proof.
  unfold positive_toString, shortest_decimal. cbv zeta. intros -> ->. reflexivity.
Qed.

Lemma decimal_digits (n : nat) (v : Z) :
  0 < v < 10 ^ Z.of_nat n ->
  exists N, 1 <= N <= Z.of_nat n /\ 10 ^ (N - 1) <= v < 10 ^ N.
Proof.
  induction n as [| n IH]; intros H; [simpl in H; lia |].
  destruct (Z.lt_ge_cases v (10 ^ Z.of_nat n)) as [Hlt | Hge].
  - destruct (IH ltac:(lia)) as (N & HN & Hv). exists N. split; [lia | exact Hv].
  - exists (Z.of_nat (S n)). split; [lia |].
    replace (Z.of_nat (S n) - 1) with (Z.of_nat n) by lia. lia.
Qed.

Variable v a : Z.
Hypothesis v_pos : 0 < v.
Hypothesis a_range : 0 <= a <= 52.
Variable m : positive.
Hypothesis m_value : Zpos m = v * 2 ^ a.
Hypothesis m_digits : Zdigits2 (Zpos m) = 53.

Lemma den_value : den (interval_of m (- a)) = 2 ^ (2 + a).
Proof.
  unfold interval_of. cbn [den]. destruct (Z.leb_spec 2 (- a)); [lia |].
  f_equal. lia.
Qed.

Lemma num_value : num (interval_of m (- a)) = v * 2 ^ (2 + a).
Proof.
  unfold interval_of. cbn [num]. destruct (Z.leb_spec 2 (- a)); [lia |].
  rewrite m_value, Z.pow_add_r by lia. change (2 ^ 2) with 4. lia.
Qed.

Lemma lo_value :
  exists below, 1 <= below <= 2 /\ lo (interval_of m (- a)) = v * 2 ^ (2 + a) - below.
Proof.
  unfold interval_of. cbn [lo]. destruct (Z.leb_spec 2 (- a)); [lia |].
  exists (if (Zpos m =? 2 ^ 52) && (SpecFloat.emin prec emax <? - a) then 1 else 2).
  split; [destruct (_ && _); lia |].
  rewrite m_value, Z.pow_add_r by lia. change (2 ^ 2) with 4. lia.
Qed.

Lemma hi_value : hi (interval_of m (- a)) = v * 2 ^ (2 + a) + 2.
Proof.
  unfold interval_of. cbn [hi]. destruct (Z.leb_spec 2 (- a)); [lia |].
  rewrite m_value, Z.pow_add_r by lia. change (2 ^ 2) with 4. lia.
Qed.

Lemma den_large : 4 <= 2 ^ (2 + a).
Proof.
  rewrite Z.pow_add_r by lia. change (2 ^ 2) with 4.
  assert (0 < 2 ^ a) by (apply Z.pow_pos_nonneg; lia). lia.
Qed.

(** The number of decimal digits of [v]. *)
Variable N : Z.
Hypothesis N_spec : 10 ^ (N - 1) <= v < 10 ^ N /\ 1 <= N.

Lemma v_range : 2 ^ (52 - a) <= v < 2 ^ (53 - a).
Proof.
  pose proof (Zdigits2_lower (Zpos m) ltac:(lia)) as Hlo.
  pose proof (Zdigits2_gt (Zpos m) ltac:(lia)) as Hhi.
  rewrite m_digits in Hlo, Hhi. rewrite m_value in Hlo, Hhi.
  assert (0 < 2 ^ a) by (apply Z.pow_pos_nonneg; lia).
  replace (53 - 1) with (52 - a + a) in Hlo by lia.
  replace 53 with (53 - a + a) in Hhi by lia.
  rewrite Z.pow_add_r in Hlo, Hhi by lia. nia.
Qed.

Lemma compare_num (n : Z) :
  compare_dec (num (interval_of m (- a))) (den (interval_of m (- a))) 1 n = Lt <-> v < 10 ^ n.
Proof.
  rewrite num_value, den_value. unfold compare_dec. pose proof den_large as HD.
  set (D := 2 ^ (2 + a)) in *.
  destruct (Z.leb_spec 0 n).
  - rewrite Z.compare_lt_iff, Z.mul_1_l. symmetry. apply Z.mul_lt_mono_pos_r. lia.
  - rewrite (Z.pow_neg_r 10 n) by lia. rewrite Z.compare_lt_iff.
    assert (0 < 10 ^ (- n)) by (apply Z.pow_pos_nonneg; lia).
    assert (1 <= v * 10 ^ (- n)) by nia.
    rewrite <- Z.mul_assoc, (Z.mul_comm D), Z.mul_assoc. split; intros; nia.
Qed.

Lemma magnitude_spec (fuel : nat) (n0 : Z) :
  n0 <= N <= n0 + Z.of_nat fuel ->
  magnitude fuel (interval_of m (- a)) n0 = N.
Proof.
  revert n0. induction fuel as [| fuel IH]; intros n0 H; [simpl; lia |].
  cbn [magnitude]. destruct N_spec as [[Hlo Hhi] HN].
  destruct (compare_dec _ _ 1 n0) eqn:E.
  - apply IH. destruct (Z.eq_dec n0 N) as [-> | ?]; [| lia].
    apply compare_num in Hhi. congruence.
  - apply compare_num in E. destruct (Z.eq_dec n0 N) as [-> | Hne]; [reflexivity |].
    assert (10 ^ n0 <= 10 ^ (N - 1)) by (apply Z.pow_le_mono_r; lia). lia.
  - apply IH. destruct (Z.eq_dec n0 N) as [-> | ?]; [| lia].
    apply compare_num in Hhi. congruence.
Qed.

Lemma N_small : N <= 16.
Proof.
  destruct N_spec as [[Hlo _] HN]. destruct v_range as [_ Hv].
  assert (2 ^ (53 - a) <= 2 ^ 53) by (apply Z.pow_le_mono_r; lia).
  assert (2 ^ 53 < 10 ^ 16) by reflexivity.
  destruct (Z.le_gt_cases N 16) as [? | Hgt]; [assumption |].
  assert (10 ^ 16 <= 10 ^ (N - 1)) by (apply Z.pow_le_mono_r; lia). lia.
Qed.

(** The first guess of the magnitude is at most eight below it. *)
Lemma guess_table :
  forallb (fun a => let g := (51 - a) * 30103 / 100000 - 1 in
                    ((g <=? 1) || (10 ^ (g - 1) <=? 2 ^ (52 - a)))
                    && (2 ^ (53 - a) <=? 10 ^ (g + 8)))
          (map Z.of_nat (seq 0 53)) = true.
Proof. vm_compute. reflexivity. Qed.

Lemma guess_range :
  let g := (51 - a) * 30103 / 100000 - 1 in g <= N <= g + 8.
Proof.
  intros g. pose proof guess_table as H. rewrite forallb_forall in H.
  specialize (H a). cbv zeta in H. fold g in H.
  assert (Hin : In a (map Z.of_nat (seq 0 53))).
  { apply in_map_iff. exists (Z.to_nat a). split; [lia |]. apply in_seq. lia. }
  apply H in Hin. apply andb_true_iff in Hin as [H1 H2].
  apply Z.leb_le in H2. destruct N_spec as [[Hlo Hhi] HN]. destruct v_range as [Hvlo Hvhi].
  split.
  - apply orb_true_iff in H1 as [H1 | H1]; apply Z.leb_le in H1; [lia |].
    destruct (Z.le_gt_cases g N) as [? | Hgt]; [assumption |].
    assert (10 ^ N <= 10 ^ (g - 1)) by (apply Z.pow_le_mono_r; lia). lia.
  - destruct (Z.le_gt_cases N (g + 8)) as [? | Hgt]; [assumption |].
    assert (10 ^ (g + 8) <= 10 ^ (N - 1)) by (apply Z.pow_le_mono_r; lia). lia.
Qed.

Lemma magnitude_guess :
  let i := interval_of m (- a) in
  magnitude 8 i ((Z.log2 (num i) - Z.log2 (den i) - 1) * 30103 / 100000 - 1) = N.
Proof.
  cbv zeta. rewrite num_value, den_value, Z.log2_pow2 by lia.
  assert (Z.log2 (v * 2 ^ (2 + a)) = 54) as ->.
  { apply Z.log2_unique; [lia |].
    pose proof (Zdigits2_lower (Zpos m) ltac:(lia)) as Hlo.
    pose proof (Zdigits2_gt (Zpos m) ltac:(lia)) as Hhi.
    rewrite m_digits in Hlo, Hhi. rewrite m_value in Hlo, Hhi.
    rewrite Z.pow_add_r by lia. change (2 ^ 2) with 4.
    change (2 ^ (53 - 1)) with 4503599627370496 in Hlo.
    change (2 ^ 53) with 9007199254740992 in Hhi.
    change (2 ^ 54) with 18014398509481984. change (2 ^ (54 + 1)) with 36028797018963968.
    lia. }
  replace (54 - (2 + a) - 1) with (51 - a) by lia.
  apply magnitude_spec. pose proof guess_range as H. cbv zeta in H.
  change (Z.of_nat 8) with 8. lia.
Qed.

(** A decimal [s * 10 ^ p] rounds to the number exactly when it is [v]:
    the numbers that round to an integer below 2^53 are less than one half
    away from it. *)
Lemma rounds_to_exact (s p : Z) :
  0 <= p -> rounds_to (interval_of m (- a)) s p = (s * 10 ^ p =? v).
Proof.
  intros Hp. unfold rounds_to, compare_dec.
  destruct (Z.leb_spec 0 p); [| lia].
  destruct lo_value as (below & Hb & ->). rewrite hi_value, den_value.
  pose proof den_large as HD. set (D := 2 ^ (2 + a)) in *.
  set (w := s * 10 ^ p).
  destruct (Z.eqb_spec w v) as [-> | Hne].
  - destruct (Z.compare_spec (v * D - below) (v * D));
      destruct (Z.compare_spec (v * D + 2) (v * D)); lia || reflexivity.
  - destruct (Z.lt_ge_cases w v).
    + destruct (Z.compare_spec (v * D - below) (w * D)); nia || reflexivity.
    + destruct (Z.compare_spec (v * D + 2) (w * D));
        destruct (Z.compare_spec (v * D - below) (w * D)); nia || reflexivity.
Qed.

Lemma candidate_exact (k : Z) :
  1 <= k <= N ->
  candidate (interval_of m (- a)) N k =
  if (v / 10 ^ (N - k) * 10 ^ (N - k) =? v) then Some (v / 10 ^ (N - k)) else None.
Proof.
  intros Hk. unfold candidate. cbv zeta.
  assert (Hs : floor_scaled (interval_of m (- a)) (N - k) = v / 10 ^ (N - k)).
  { unfold floor_scaled. destruct (Z.leb_spec 0 (N - k)); [| lia].
    rewrite num_value, den_value.
    pose proof den_large.
    assert (0 < 10 ^ (N - k)) by (apply Z.pow_pos_nonneg; lia).
    rewrite (Z.mul_comm v), Z.div_mul_cancel_l by lia. reflexivity. }
  rewrite Hs, !rounds_to_exact by lia.
  assert (0 < 10 ^ (N - k)) by (apply Z.pow_pos_nonneg; lia).
  set (t := 10 ^ (N - k)) in *.
  assert (Hgt : v < (v / t + 1) * t).
  { pose proof (Z.mul_succ_div_gt v t ltac:(lia)). lia. }
  destruct (Z.eqb_spec ((v / t + 1) * t) v); [lia |].
  now destruct (v / t * t =? v).
Qed.

Lemma shortest_exact (fuel : nat) (k : Z) :
  1 <= k <= N -> N - k < Z.of_nat fuel ->
  exists d k', shortest fuel (interval_of m (- a)) N k = (d, k', N) /\
               1 <= k' <= N /\ d * 10 ^ (N - k') = v.
Proof.
  revert k. induction fuel as [| fuel IH]; intros k Hk Hf; [lia |].
  cbn [shortest]. rewrite candidate_exact by assumption.
  assert (Ht : 0 < 10 ^ (N - k)) by (apply Z.pow_pos_nonneg; lia).
  destruct (Z.eqb_spec (v / 10 ^ (N - k) * 10 ^ (N - k)) v) as [E | Hne].
  - destruct N_spec as [[_ Hhi] _].
    assert (Hlt : v / 10 ^ (N - k) < 10 ^ k).
    { apply Z.div_lt_upper_bound; [lia |]. rewrite <- Z.pow_add_r by lia.
      replace (N - k + k) with N by lia. exact Hhi. }
    destruct (Z.eqb_spec (v / 10 ^ (N - k)) (10 ^ k)); [lia |].
    exists (v / 10 ^ (N - k)), k. auto.
  - destruct (Z.eq_dec k N) as [-> | HkN].
    + rewrite Z.sub_diag, Z.pow_0_r, Z.div_1_r in Hne. lia.
    + apply IH; lia.
Qed.

Lemma shortest_decimal_exact :
  exists d k, shortest_decimal m (- a) = (d, k, N) /\ 1 <= k <= N /\ d * 10 ^ (N - k) = v.
Proof.
  unfold shortest_decimal. cbv zeta. rewrite magnitude_guess.
  destruct N_spec as [_ HN]. pose proof N_small.
  apply shortest_exact; [lia |]. change (Z.of_nat 17) with 17. lia.
Qed.


End PropertyKeys.

(** The number of a nonzero integer below 2^53 has a mantissa of 53 bits. *)
Lemma of_Z_normal (k : Z) :
  k <> 0 -> Z.abs k < 2 ^ 53 ->
  exists m e,
    Prim2SF (of_Z k) = S754_finite (k <? 0) m e /\
    -52 <= e <= 0 /\ Zpos m = Z.abs k * 2 ^ (- e) /\ Zdigits2 (Zpos m) = 53.
Proof.
  intros Hk Hlt.
  destruct (binary_normalize_exact k Hk Hlt) as (m & e & E & He & Hm & Hd).
  exists m, e. split; [| auto]. unfold of_Z. rewrite E.
  apply Prim2SF_SF2Prim. unfold valid_binary, bounded, canonical_mantissa.
  change (Zpos (digits2_pos m)) with (Zdigits2 (Zpos m)). rewrite Hd.
  apply andb_true_iff. split.
  - apply Z.eqb_eq. unfold fexp, SpecFloat.emin, prec, emax. lia.
  - apply Z.leb_le. unfold prec, emax. lia.
Qed.

(** The property key of the number of an integer is the integer: below 2^53
    [toString] spells the integer itself. *)
Lemma integer_key_of_Z (k : Z) : Z.abs k < 2 ^ 53 -> integer_key (of_Z k) = Some k.
Proof.
  intros Hlt. destruct (Z.eq_dec k 0) as [-> | Hk]; [reflexivity |].
  destruct (of_Z_normal k Hk Hlt) as (m & e & Ek & He & Hm & Hd).
  unfold integer_key. rewrite Ek.
  assert (Hd16 : 0 < Z.abs k < 10 ^ Z.of_nat 16).
  { assert (2 ^ 53 < 10 ^ 16) by reflexivity. change (Z.of_nat 16) with 16. lia. }
  destruct (decimal_digits 16 (Z.abs k) Hd16) as (N & HN & HvN).
  replace e with (- (- e)) by lia.
  destruct (shortest_decimal_exact (Z.abs k) (- e) ltac:(lia) ltac:(lia) m Hm Hd N
              ltac:(lia))
    as (d & k' & -> & Hk' & Hv).
  change (Z.of_nat 16) with 16 in HN.
  destruct (Z.leb_spec k' N); [| lia]. destruct (Z.leb_spec N 21); [| lia].
  cbn [andb]. rewrite Hv. f_equal. unfold cond_Zopp. destruct (Z.ltb_spec k 0); lia.
Qed.

Lemma truthy_of_Z (k : Z) : Z.abs k < 2 ^ 53 -> truthy (of_Z k) = negb (k =? 0).
Proof.
  intros Hlt. destruct (Z.eq_dec k 0) as [-> | Hk]; [reflexivity |].
  destruct (of_Z_finite k Hk Hlt) as (m & e & E & _).
  unfold truthy, is_zero, is_nan. rewrite !FloatAxioms.eqb_spec, E.
  change (Prim2SF 0) with (S754_zero false).
  destruct (Z.eqb_spec k 0); [contradiction |].
  unfold SFeqb, SFcompare. rewrite Z.compare_refl, Pos.compare_cont_refl.
  now destruct (k <? 0).
Qed.

End SafeIntegers.

Section Comparator.
Local Open Scope Z_scope.

Lemma iter_shr_1_lower (p : positive) (r : shr_record) :
  0 <= shr_m r ->
  shr_m r < 2 ^ Zpos p * (shr_m (SpecFloat.iter_pos shr_1 p r) + 1).
Proof.
  assert (H1 : forall r, 0 <= shr_m r -> shr_m r < 2 * (shr_m (shr_1 r) + 1)).
  { intros [[| [q | q |] | q] b s]; simpl; lia. }
  revert r. induction p as [p IH | p IH |]; intros r Hr; simpl SpecFloat.iter_pos.
  - destruct (shr_1_bound r Hr) as [Ha _].
    destruct (iter_shr_1_bound p _ Ha) as [Hb _].
    pose proof (H1 r Hr). pose proof (IH _ Ha). pose proof (IH _ Hb).
    replace (Zpos p~1) with (Zpos p + Zpos p + 1) by lia.
    rewrite !Z.pow_add_r, Z.pow_1_r by lia.
    assert (0 < 2 ^ Zpos p) by (apply Z.pow_pos_nonneg; lia). nia.
  - destruct (iter_shr_1_bound p _ Hr) as [Hb _].
    pose proof (IH _ Hr). pose proof (IH _ Hb).
    replace (Zpos p~0) with (Zpos p + Zpos p) by lia.
    rewrite !Z.pow_add_r by lia.
    assert (0 < 2 ^ Zpos p) by (apply Z.pow_pos_nonneg; lia). nia.
  - rewrite Z.pow_1_r. now apply H1.
Qed.

(** A positive mantissa at an exponent that is not below the least one is
    not shifted away. *)
Lemma shr_fexp_positive (m e : Z) (l : location) :
  0 < m -> SpecFloat.emin prec emax <= e ->
  let '(r, e') := shr_fexp prec emax m e l in
  0 < shr_m r /\ SpecFloat.emin prec emax <= e'.
Proof.
  intros Hm He. unfold shr_fexp, shr.
  pose proof (Zdigits2_lower m Hm) as Hlo.
  set (d := Zdigits2 m) in *.
  destruct (fexp prec emax (d + e) - e) as [| p | p] eqn:En.
  - now rewrite shr_record_of_loc_m.
  - unfold fexp, SpecFloat.emin, prec, emax in *.
    assert (Hp : Zpos p = d - 53) by lia.
    pose proof (iter_shr_1_lower p (shr_record_of_loc m l)) as Hi.
    destruct (iter_shr_1_bound p (shr_record_of_loc m l)) as [H0 _].
    { rewrite shr_record_of_loc_m. lia. }
    rewrite shr_record_of_loc_m in Hi. specialize (Hi ltac:(lia)).
    split; [| lia].
    assert (Hpw : 2 ^ Zpos p <= 2 ^ (d - 1)) by (apply Z.pow_le_mono_r; lia).
    assert (0 < 2 ^ Zpos p) by (apply Z.pow_pos_nonneg; lia).
    nia.
  - now rewrite shr_record_of_loc_m.
Qed.

Lemma binary_round_aux_nonzero (s : bool) (m e : Z) (l : location) :
  0 < m -> SpecFloat.emin prec emax <= e ->
  match binary_round_aux prec emax s m e l with
  | S754_finite s' _ _ | S754_infinity s' => s' = s
  | _ => False
  end.
Proof.
  intros Hm He. unfold binary_round_aux.
  pose proof (shr_fexp_positive m e l Hm He) as H1.
  destruct (shr_fexp prec emax m e l) as [r1 e1]. destruct H1 as [Hr1 He1].
  pose proof (round_nearest_even_bound (shr_m r1) (loc_of_shr_record r1) ltac:(lia)) as Hrn.
  pose proof (shr_fexp_positive (round_nearest_even (shr_m r1) (loc_of_shr_record r1))
                e1 loc_Exact ltac:(lia) He1) as H2.
  destruct (shr_fexp prec emax _ e1 loc_Exact) as [r2 e2]. destruct H2 as [Hr2 He2].
  destruct (shr_m r2); try lia.
  now destruct (e2 <=? emax - prec).
Qed.

Lemma shl_align_value (m : positive) (e e' : Z) :
  e' <= e ->
  Zpos (fst (shl_align m e e')) = Zpos m * 2 ^ (e - e') /\ snd (shl_align m e e') = e'.
Proof.
  intros H. unfold shl_align.
  destruct (e' - e) as [| p | p] eqn:E; try lia; simpl.
  - replace (e - e') with 0 by lia. split; lia.
  - rewrite iter_xO. split; [| reflexivity]. f_equal. f_equal. lia.
Qed.

(** The number of a nonzero integer [n * 2 ^ e] has the sign of [n]. *)
Lemma binary_normalize_sign (n e : Z) :
  n <> 0 -> SpecFloat.emin prec emax <= e ->
  match binary_normalize prec emax n e false with
  | S754_finite s _ _ | S754_infinity s => s = (n <? 0)
  | _ => False
  end.
Proof.
  intros Hn He.
  assert (Hgen : forall s p,
             match binary_round prec emax s p e with
             | S754_finite s' _ _ | S754_infinity s' => s' = s
             | _ => False
             end).
  { intros s p. unfold binary_round.
    set (e' := fexp prec emax (Zpos (digits2_pos p) + e)).
    assert (He' : SpecFloat.emin prec emax <= e') by (unfold e', fexp; lia).
    destruct (shl_align p e e') as [mz ez] eqn:Es.
    assert (Hez : SpecFloat.emin prec emax <= ez).
    { unfold shl_align in Es. destruct (e' - e); injection Es as <- <-; lia. }
    apply binary_round_aux_nonzero; lia. }
  destruct n as [| p | p]; [lia | |]; simpl binary_normalize.
  - apply (Hgen false).
  - apply (Hgen true).
Qed.

Local Open Scope float_scope.

(** The comparator [(a, b) => b - a] on the numbers of two integers. *)
Lemma comparator_sign (a b : Z) :
  (Z.abs a < 2 ^ 53)%Z -> (Z.abs b < 2 ^ 53)%Z ->
  (0 <? of_Z b - of_Z a) = (a <? b)%Z.
Proof.
  intros Ha Hb. rewrite ltb_spec, sub_spec. change (Prim2SF 0) with (S754_zero false).
  destruct (Z.eq_dec a 0%Z) as [-> | Ha0], (Z.eq_dec b 0%Z) as [-> | Hb0].
  - reflexivity.
  - destruct (of_Z_finite b Hb0 Hb) as (mb & eb & -> & _).
    rewrite of_Z_zero. unfold SF64sub, SFsub, SFltb, SFcompare.
    destruct (Z.ltb_spec b 0%Z), (Z.ltb_spec 0%Z b); lia || reflexivity.
  - destruct (of_Z_finite a Ha0 Ha) as (ma & ea & -> & _).
    rewrite of_Z_zero. unfold SF64sub, SFsub, SFltb, SFcompare. cbn [negb].
    destruct (Z.ltb_spec a 0%Z); lia || reflexivity.
  - destruct (of_Z_finite a Ha0 Ha) as (ma & ea & -> & Hea & Hma).
    destruct (of_Z_finite b Hb0 Hb) as (mb & eb & -> & Heb & Hmb).
    unfold SF64sub, SFsub.
    set (ez := Z.min eb ea).
    destruct (shl_align_value mb eb ez ltac:(lia)) as [Vb _].
    destruct (shl_align_value ma ea ez ltac:(lia)) as [Va _].
    rewrite Va, Vb, Hma, Hmb.
    assert (Hval : forall k e : Z, (e <= 0)%Z -> (ez <= e)%Z ->
               cond_Zopp (k <? 0)%Z (Z.abs k * 2 ^ (- e) * 2 ^ (e - ez))
               = (k * 2 ^ (- ez))%Z).
    { intros k e He0 Hez. rewrite <- Z.mul_assoc, <- Z.pow_add_r by lia.
      replace (- e + (e - ez))%Z with (- ez)%Z by lia.
      unfold cond_Zopp. destruct (Z.ltb_spec k 0%Z); [rewrite Z.abs_neq | rewrite Z.abs_eq]; lia. }
    rewrite (Hval b eb), (Hval a ea) by lia.
    rewrite <- Z.mul_sub_distr_r.
    set (n := ((b - a) * 2 ^ (- ez))%Z).
    assert (Hp : (0 < 2 ^ (- ez))%Z) by (apply Z.pow_pos_nonneg; lia).
    destruct (Z.eq_dec a b) as [-> | Hab].
    + replace n with 0%Z by (unfold n; lia). simpl. now rewrite Z.ltb_irrefl.
    + pose proof (binary_normalize_sign n ez ltac:(unfold n; nia)
                    ltac:(unfold SpecFloat.emin, prec, emax; lia)) as Hs.
      unfold SFltb, SFcompare.
      destruct (binary_normalize prec emax n ez false) as [| s | | s m e];
        try contradiction; subst s;
        destruct (Z.ltb_spec n 0%Z), (Z.ltb_spec a b); (unfold n in *; nia) || reflexivity.
Qed.

End Comparator.

Section SortedThresholds.

Lemma sort_insert_of_Z (x : Z) (acc : list Z) :
  (Z.abs x < 2 ^ 53)%Z -> Forall (fun k => Z.abs k < 2 ^ 53)%Z acc ->
  x ∉ acc -> StronglySorted Z.gt acc ->
  exists acc' : list Z,
    sort_insert (fun a b => b - a) (of_Z x) (map of_Z acc) = map of_Z acc' /\
    acc' ≡ₚ x :: acc /\ StronglySorted Z.gt acc'.
Proof.
  intros Hx. induction acc as [| y l IH]; intros Hsafe Hnin Hsorted.
  - exists [x]. repeat split; [reflexivity | repeat constructor].
  - apply Forall_cons in Hsafe as [Hy Hl].
    apply not_elem_of_cons in Hnin as [Hxy Hnin].
    apply StronglySorted_inv in Hsorted as [Hs Hall].
    cbn [map sort_insert].
    rewrite (comparator_sign y x Hy Hx).
    destruct (Z.ltb_spec y x) as [Hlt | Hge].
    + exists (x :: y :: l). repeat split; [reflexivity |].
      constructor; [constructor; assumption |].
      constructor; [lia |]. eapply Forall_impl; [exact Hall |]. simpl. lia.
    + destruct (IH Hl Hnin Hs) as (acc' & E & Hp & Hs').
      exists (y :: acc'). split; [| split].
      * cbn [map]. now rewrite E.
      * rewrite Hp. apply Permutation_swap.
      * constructor; [assumption |].
        rewrite Hp. constructor; [lia | assumption].
Qed.

Lemma sort_of_Z_from (l acc : list Z) :
  Forall (fun k => Z.abs k < 2 ^ 53)%Z (l ++ acc) -> NoDup (l ++ acc) ->
  StronglySorted Z.gt acc ->
  exists res : list Z,
    fold_left (fun acc x => sort_insert (fun a b => b - a) x acc) (map of_Z l) (map of_Z acc)
    = map of_Z res /\
    res ≡ₚ l ++ acc /\ StronglySorted Z.gt res.
Proof.
  revert acc. induction l as [| x l IH]; intros acc Hsafe Hnd Hsorted.
  - exists acc. auto.
  - cbn [map fold_left app] in *.
    apply Forall_cons in Hsafe as [Hx Hsafe].
    apply NoDup_cons in Hnd as [Hnin Hnd].
    apply Forall_app in Hsafe as Hsafe2. destruct Hsafe2 as [Hl Hacc].
    apply NoDup_app in Hnd as (Hn1 & Hn2 & Hn3).
    assert (Hxl : x ∉ l) by (intros H; apply Hnin, elem_of_app; now left).
    assert (Hxa : x ∉ acc) by (intros H; apply Hnin, elem_of_app; now right).
    destruct (sort_insert_of_Z x acc Hx Hacc Hxa Hsorted) as (acc' & E & Hp & Hs).
    rewrite E.
    destruct (IH acc') as (res & E' & Hp' & Hs').
    + rewrite Forall_app. split; [assumption |]. rewrite Hp. now constructor.
    + rewrite Hp. apply NoDup_app. split; [assumption | split].
      * intros z Hz. rewrite elem_of_cons. intros [-> | Hz']; [contradiction | exact (Hn2 z Hz Hz')].
      * now constructor.
    + assumption.
    + exists res. split; [assumption | split; [| assumption]].
      rewrite Hp', Hp. now rewrite Permutation_middle.
Qed.

(** [sort] with the comparator of [getStrokeColor] puts the numbers of
    distinct integers in descending order. *)
Lemma sort_of_Z (l : list Z) :
  Forall (fun k => Z.abs k < 2 ^ 53)%Z l -> NoDup l ->
  exists res : list Z,
    sort (fun a b => b - a) (map of_Z l) = map of_Z res /\ res ≡ₚ l /\ StronglySorted Z.gt res.
Proof.
  intros Hsafe Hnd.
  destruct (sort_of_Z_from l []) as (res & E & Hp & Hs);
    rewrite ?app_nil_r; try assumption; [constructor |].
  exists res. rewrite app_nil_r in Hp. auto.
Qed.

Lemma find_map {A B : Type} (f : A -> B) (p : B -> bool) (l : list A) :
  List.find p (map f l) = f <$> List.find (fun x => p (f x)) l.
Proof. induction l as [| x l IH]; [reflexivity |]. simpl. now destruct (p (f x)). Qed.

Lemma last_map {A B : Type} (f : A -> B) (l : list A) : last (map f l) = f <$> last l.
Proof.
  induction l as [| x l IH]; [reflexivity |].
  destruct l as [| y l]; [reflexivity |]. exact IH.
Qed.

(** In a descending list [find] gives the largest element that passes. *)
Lemma find_largest (p : Z -> bool) (l : list Z) (k : Z) :
  StronglySorted Z.gt l -> k ∈ l -> p k = true ->
  (forall k', k' ∈ l -> p k' = true -> (k' <= k)%Z) ->
  List.find p l = Some k.
Proof.
  induction l as [| y l IH]; intros Hs Hk Hp Hmax; [now apply elem_of_nil in Hk |].
  apply StronglySorted_inv in Hs as [Hs Hall]. simpl.
  destruct (p y) eqn:Hy.
  - f_equal. pose proof (Hmax y (list_elem_of_here y l) Hy).
    apply elem_of_cons in Hk as [-> | Hk]; [reflexivity |].
    rewrite Forall_forall in Hall. specialize (Hall k Hk). lia.
  - apply IH; [assumption | | assumption |].
    + apply elem_of_cons in Hk as [-> | Hk]; [congruence | assumption].
    + intros k' Hk'. apply Hmax. now apply list_elem_of_further.
Qed.

Lemma find_none (p : Z -> bool) (l : list Z) :
  (forall k', k' ∈ l -> p k' = false) -> List.find p l = None.
Proof.
  induction l as [| y l IH]; intros H; [reflexivity |]. simpl.
  rewrite (H y) by apply list_elem_of_here.
  apply IH. intros k' Hk'. apply H. now apply list_elem_of_further.
Qed.

(** Its last element is the least. *)
Lemma last_least (l : list Z) (k : Z) :
  StronglySorted Z.gt l -> k ∈ l -> (forall k', k' ∈ l -> (k <= k')%Z) -> last l = Some k.
Proof.
  induction l as [| y l IH]; intros Hs Hk Hmin; [now apply elem_of_nil in Hk |].
  apply StronglySorted_inv in Hs as [Hs Hall].
  destruct l as [| z l].
  - simpl. f_equal. apply elem_of_cons in Hk as [-> | Hk]; [reflexivity |].
    now apply elem_of_nil in Hk.
  - change (last (y :: z :: l)) with (last (z :: l)).
    apply IH; [assumption | | intros k' Hk'; apply Hmin; now apply list_elem_of_further].
    apply elem_of_cons in Hk as [-> | Hk]; [| assumption].
    rewrite Forall_forall in Hall. specialize (Hall z (list_elem_of_here z l)).
    assert (Hz : z ∈ y :: z :: l) by apply list_elem_of_further, list_elem_of_here.
    specialize (Hmin z Hz). lia.
Qed.

End SortedThresholds.

(** The steps of [getStrokeColor] on a table whose thresholds are integers
    that a number holds exactly. *)
Section ColorBands.

Variable colors : ColorDefinition.
Hypothesis safe : forall k, k ∈ dom colors -> (Z.abs k < 2 ^ 53)%Z.

Lemma parsedKeys_of_Z : parsedKeys colors = map of_Z (map fst (map_to_list colors)).
Proof. unfold parsedKeys. now rewrite map_map. Qed.

Lemma keys_dom (k : Z) : k ∈ map fst (map_to_list colors) <-> k ∈ dom colors.
Proof.
  rewrite elem_of_dom. change (map fst (map_to_list colors)) with ((map_to_list colors).*1).
  rewrite list_elem_of_fmap. split.
  - intros ([k' v] & -> & H). apply elem_of_map_to_list in H. eauto.
  - intros [v H]. exists (k, v). split; [reflexivity |]. now apply elem_of_map_to_list.
Qed.

(** [sortedSpeeds] holds the thresholds of the table, largest first. *)
Lemma sortedSpeeds_descending :
  exists keys : list Z,
    sort (fun a b => b - a) (parsedKeys colors) = map of_Z keys /\
    (forall k, k ∈ keys <-> k ∈ dom colors) /\ StronglySorted Z.gt keys.
Proof.
  destruct (sort_of_Z (map fst (map_to_list colors))) as (keys & E & Hp & Hs).
  - apply Forall_forall. intros k Hk. apply safe. now apply keys_dom.
  - apply NoDup_fst_map_to_list.
  - exists keys. rewrite parsedKeys_of_Z. split; [exact E | split; [| exact Hs]].
    intros k. rewrite Hp. apply keys_dom.
Qed.

(** [colors[speed]] on a threshold that is present. *)
Lemma lookupColor_of_Z (k : Z) (v : string) :
  colors !! k = Some v -> lookupColor colors (Some (of_Z k)) = Some v.
Proof.
  intros Hv. unfold lookupColor. rewrite integer_key_of_Z; [exact Hv |].
  apply safe, elem_of_dom. eauto.
Qed.

(** The color looked up when [find] finds nothing, or finds the threshold 0. *)
Lemma lookupColor_least (k : Z) (v : string) (keys : list Z) :
  sort (fun a b => b - a) (parsedKeys colors) = map of_Z keys ->
  (forall k, k ∈ keys <-> k ∈ dom colors) -> StronglySorted Z.gt keys ->
  colors !! k = Some v -> (forall k', k' ∈ dom colors -> (k <= k')%Z) ->
  lookupColor colors (last (sort (fun a b => b - a) (parsedKeys colors))) = Some v.
Proof.
  intros E Hkeys Hs Hv Hmin. rewrite E, last_map.
  rewrite (last_least keys k); try assumption.
  - cbn [fmap option_fmap option_map]. now apply lookupColor_of_Z.
  - apply Hkeys, elem_of_dom. eauto.
  - intros k' Hk'. apply Hmin. now apply Hkeys.
Qed.

End ColorBands.

(** What the built-in table holds. *)
Lemma DEFAULT_COLORS_entries (k : Z) (v : string) :
  DEFAULT_COLORS !! k = Some v ->
  In (k, v) [ (-1, "#cccccc"); (0, "#000000"); (1000000, "#0000ff"); (10000000, "#00cccc");
              (25000000, "#00ff00"); (50000000, "#cccc00"); (75000000, "#ee7000");
              (100000000, "#ff0000") ]%Z.
Proof.
  intros H. apply list_elem_of_In. unfold DEFAULT_COLORS in H.
  apply elem_of_list_to_map_2 in H. exact H.
Qed.

Lemma DEFAULT_COLORS_thresholds (k : Z) :
  k ∈ dom DEFAULT_COLORS ->
  In k [-1; 0; 1000000; 10000000; 25000000; 50000000; 75000000; 100000000]%Z.
Proof.
  intros H. apply elem_of_dom in H as [v H]. apply DEFAULT_COLORS_entries in H.
  apply (in_map fst) in H. exact H.
Qed.

Lemma DEFAULT_COLORS_safe (k : Z) : k ∈ dom DEFAULT_COLORS -> (Z.abs k < 2 ^ 53)%Z.
Proof.
  intros H. apply DEFAULT_COLORS_thresholds in H.
  repeat (destruct H as [<- | H]; [reflexivity |]). destruct H.
Qed.

(** X1: on any color table whose thresholds are integers below 2^53 in
    absolute value, a traffic value gets the color stored for the largest
    threshold that is at most the traffic, provided that threshold is not 0;
    an empty color text stored there is replaced by black. *)
Theorem getStrokeColor_largest_threshold (colors : ColorDefinition) (traffic : float)
    (k : Z) (v : string) :
  (forall k', k' ∈ dom colors -> (Z.abs k' < 2 ^ 53)%Z) ->
  colors !! k = Some v -> k <> 0%Z ->
  (of_Z k <=? traffic) = true ->
  (forall k', k' ∈ dom colors -> (of_Z k' <=? traffic) = true -> (k' <= k)%Z) ->
  getStrokeColor traffic colors = if String.eqb v "" then "#000000" else v.
Proof.
  intros safe Hv Hk0 Hle Hmax.
  assert (Hk : k ∈ dom colors) by (apply elem_of_dom; eauto).
  destruct (sortedSpeeds_descending colors safe) as (keys & E & Hkeys & Hs).
  unfold getStrokeColor. cbv zeta. rewrite E at 1. rewrite find_map.
  rewrite (find_largest (fun x => of_Z x <=? traffic) keys k); try assumption.
  - cbn [fmap option_fmap option_map].
    rewrite truthy_of_Z by now apply safe.
    destruct (Z.eqb_spec k 0); [contradiction |]. cbn [negb].
    now rewrite (lookupColor_of_Z colors safe k v).
  - now apply Hkeys.
  - intros k' Hk'. apply Hmax. now apply Hkeys.
Qed.

(** 30,000,000 bps on the built-in table: the threshold 25,000,000. *)
Lemma getStrokeColor_largest_threshold_witness :
  getStrokeColor 30000000 DEFAULT_COLORS = "#00ff00".
Proof.
  apply (getStrokeColor_largest_threshold DEFAULT_COLORS 30000000 25000000 "#00ff00"
           DEFAULT_COLORS_safe).
  - reflexivity.
  - discriminate.
  - reflexivity.
  - intros k' Hk' Hle. apply DEFAULT_COLORS_thresholds in Hk'.
    repeat (destruct Hk' as [<- | Hk']; [lia || (vm_compute in Hle; discriminate Hle) |]).
    destruct Hk'.
Defined.

(** X2: on a color table whose thresholds are integers below 2^53 in
    absolute value, a traffic value that no threshold is at most (one below
    every threshold, or one that is not a number) gets the color stored for
    the least threshold; an empty color text stored there is replaced by
    black. *)
Theorem getStrokeColor_below_all (colors : ColorDefinition) (traffic : float)
    (k : Z) (v : string) :
  (forall k', k' ∈ dom colors -> (Z.abs k' < 2 ^ 53)%Z) ->
  colors !! k = Some v ->
  (forall k', k' ∈ dom colors -> (k <= k')%Z) ->
  (forall k', k' ∈ dom colors -> (of_Z k' <=? traffic) = false) ->
  getStrokeColor traffic colors = if String.eqb v "" then "#000000" else v.
Proof.
  intros safe Hv Hmin Hnone.
  destruct (sortedSpeeds_descending colors safe) as (keys & E & Hkeys & Hs).
  unfold getStrokeColor. cbv zeta. rewrite E at 1. rewrite find_map.
  rewrite (find_none (fun x => of_Z x <=? traffic) keys).
  - cbn [fmap option_fmap option_map].
    now rewrite (lookupColor_least colors safe k v keys).
  - intros k' Hk'. apply Hnone. now apply Hkeys.
Qed.

(** -5 bps on the built-in table: the threshold -1. *)
Lemma getStrokeColor_below_all_witness :
  getStrokeColor (-5) DEFAULT_COLORS = "#cccccc".
Proof.
  apply (getStrokeColor_below_all DEFAULT_COLORS (-5) (-1) "#cccccc" DEFAULT_COLORS_safe).
  - reflexivity.
  - intros k' Hk'. apply DEFAULT_COLORS_thresholds in Hk'.
    repeat (destruct Hk' as [<- | Hk']; [lia |]). destruct Hk'.
  - intros k' Hk'. apply DEFAULT_COLORS_thresholds in Hk'.
    repeat (destruct Hk' as [<- | Hk']; [vm_compute; reflexivity |]). destruct Hk'.
Defined.



(* ===================================================================== *)
(** * Markup characters *)
(* ===================================================================== *)

Section Escaping.

Lemma xmlescape_plain (s : string) : plain s = true -> xmlescape s = s.
Proof.
  induction s as [| a s IH]; [reflexivity |]. simpl. intros H.
  apply andb_true_iff in H as [Ha Hs]. rewrite (IH Hs).
  unfold special in Ha. unfold escape_char.
  destruct (Ascii.eqb a "&"), (Ascii.eqb a "<"), (Ascii.eqb a ">"), (Ascii.eqb a "'"),
    (Ascii.eqb a dquote); try discriminate. reflexivity.
Qed.

Lemma plain_app (a b : string) : plain (a +:+ b) = plain a && plain b.
Proof.
  induction a as [| x a IH]; [reflexivity |].
  rewrite append_cons. simpl. now rewrite IH, andb_assoc.
Qed.

Lemma is_digit_plain (a : ascii) : is_digit a = true -> special a = false.
Proof. destruct a as [[] [] [] [] [] [] [] []]; vm_compute; congruence. Qed.

Lemma all_digits_plain (s : string) : all_digits s = true -> plain s = true.
Proof.
  induction s as [| a s IH]; [reflexivity |]. simpl. intros H.
  apply andb_true_iff in H as [Ha Hs]. now rewrite (is_digit_plain a Ha), IH.
Qed.

Lemma plain_digits (n : Z) : plain (digits n) = true.
Proof. apply all_digits_plain, all_digits_digits. Qed.

Lemma plain_zeros (n : nat) : plain (zeros n) = true.
Proof. apply all_digits_plain, all_digits_zeros. Qed.

Lemma plain_substring (s : string) (i j : nat) :
  plain s = true -> plain (String.substring i j s) = true.
Proof.
  revert i j. induction s as [| x s IH]; intros i j H.
  - destruct i, j; reflexivity.
  - simpl in H. apply andb_true_iff in H as [Hx Hs].
    destruct i as [| i]; [destruct j as [| j] |]; simpl; auto.
    now rewrite Hx, IH.
Qed.

Lemma plain_positive_toString (m : positive) (e : Z) : plain (positive_toString m e) = true.
Proof.
  unfold positive_toString, take, drop.
  destruct (shortest _ _ _ _) as [[s k] n].
  repeat match goal with
         | |- context [if ?b then _ else _] => destruct b
         end;
    repeat rewrite plain_app;
    repeat first [ rewrite plain_digits | rewrite plain_zeros
                 | rewrite plain_substring by apply plain_digits ];
    reflexivity.
Qed.

(** A number is written without any of the characters that [xmlescape]
    replaces. *)
Lemma plain_toString (x : float) : plain (toString x) = true.
Proof.
  unfold toString. destruct (Prim2SF x) as [s | s | | s m e]; try reflexivity.
  - now destruct s.
  - rewrite plain_app, plain_positive_toString. now destruct s.
Qed.

Lemma plain_fixed_digits (n : Z) (f : nat) : plain (fixed_digits n f) = true.
Proof.
  unfold fixed_digits. destruct f as [| f]; [apply plain_digits |].
  rewrite !plain_app.
  rewrite !plain_substring; [reflexivity | |];
    now rewrite plain_app, plain_zeros, plain_digits.
Qed.

Lemma plain_toFixed (x : float) (f : nat) : plain (toFixed x f) = true.
Proof.
  unfold toFixed. destruct (_ || _); [apply plain_toString |].
  destruct (Prim2SF x) as [s | s | | s m e]; try apply plain_fixed_digits.
  rewrite plain_app, plain_fixed_digits. now destruct s.
Qed.

Lemma plain_formatTraffic (t : float) : plain (formatTraffic t) = true.
Proof.
  unfold formatTraffic.
  repeat match goal with
         | |- context [if ?b then _ else _] => destruct b
         end; rewrite ?plain_app, ?plain_toFixed; reflexivity.
Qed.

Lemma count_char_app (c : ascii) (a b : string) :
  count_char c (a +:+ b) = (count_char c a + count_char c b)%nat.
Proof.
  induction a as [| x a IH]; [reflexivity |]. rewrite append_cons. simpl. rewrite IH. lia.
Qed.

Lemma count_char_plain (c : ascii) (s : string) :
  special c = true -> plain s = true -> count_char c s = 0%nat.
Proof.
  intros Hc. induction s as [| a s IH]; [reflexivity |]. simpl. intros H.
  apply andb_true_iff in H as [Ha Hs]. rewrite (IH Hs).
  destruct (Ascii.eqb_spec a c) as [-> | _]; [| reflexivity].
  rewrite Hc in Ha. discriminate.
Qed.

Lemma count_char_toString (c : ascii) (x : float) :
  special c = true -> count_char c (toString x) = 0%nat.
Proof. intros Hc. apply count_char_plain, plain_toString. exact Hc. Qed.

Lemma count_char_escape_char (c a : ascii) :
  In c ["<"; ">"; "'"; dquote]%char -> count_char c (escape_char a) = 0%nat.
Proof.
  intros Hc. unfold escape_char.
  repeat match goal with
         | |- context [Ascii.eqb a ?x] => destruct (Ascii.eqb_spec a x) as [-> | ?]
         end;
    try (destruct Hc as [<- | [<- | [<- | [<- | []]]]]; reflexivity).
  simpl. destruct (Ascii.eqb_spec a c) as [-> | _]; [| reflexivity].
  destruct Hc as [<- | [<- | [<- | [<- | []]]]]; congruence.
Qed.

(** What [xmlescape] returns holds no angle bracket and no quote. *)
Lemma count_char_xmlescape (c : ascii) (s : string) :
  In c ["<"; ">"; "'"; dquote]%char -> count_char c (xmlescape s) = 0%nat.
Proof.
  intros Hc. induction s as [| a s IH]; [reflexivity |].
  simpl. now rewrite count_char_app, IH, count_char_escape_char.
Qed.

Lemma count_char_remove_first (c x : ascii) (s : string) :
  c <> x -> count_char c (remove_first x s) = count_char c s.
Proof.
  intros Hc. induction s as [| a s IH]; [reflexivity |]. cbn [remove_first count_char].
  destruct (Ascii.eqb_spec a x) as [-> | _].
  - destruct (Ascii.eqb_spec x c); [congruence | reflexivity].
  - cbn [count_char]. now rewrite IH.
Qed.

Lemma count_char_join (c : ascii) (sep : string) (l : list string) :
  count_char c sep = 0%nat ->
  count_char c (join sep l) = list_sum (map (count_char c) l).
Proof.
  intros Hsep. induction l as [| x l IH]; [reflexivity |].
  destruct l as [| y l]; [simpl; lia |].
  change (join sep (x :: y :: l)) with (x +:+ sep +:+ join sep (y :: l)).
  rewrite !count_char_app, IH, Hsep. reflexivity.
Qed.

End Escaping.

Ltac count_markup :=
  repeat rewrite count_char_app;
  repeat rewrite count_char_toString by reflexivity;
  repeat rewrite count_char_xmlescape by (simpl; tauto);
  reflexivity.

(** X4: the text of a traffic label holds none of the characters that
    [xmlescape] replaces, whatever number the traffic is: [renderTraffic]
    writes it into the label as [formatTraffic] gives it. *)
Theorem traffic_label_unescaped (x y traffic fontSize : float) :
  plain (formatTraffic traffic) = true /\
  xmlescape (formatTraffic traffic) = formatTraffic traffic /\
  count_char "<" (renderTraffic x y traffic fontSize) = 3%nat.
Proof.
  split; [apply plain_formatTraffic | split].
  - apply xmlescape_plain, plain_formatTraffic.
  - unfold renderTraffic. cbv zeta. count_markup.
Qed.

(** X5: a device is drawn as a [use] element, when its type has an icon, and
    a [text] element; no device name (nor type, nor coordinate) adds a tag or
    a quote to these: the numbers of angle brackets and of quotes of the
    fragment are fixed. *)
Theorem renderDevice_markup (device : DeviceData.t) :
  let tags := if has_icon (DeviceData.type device) then 3%nat else 2%nat in
  let quotes := if has_icon (DeviceData.type device) then 18%nat else 12%nat in
  count_char "<" (renderDevice device) = tags /\
  count_char ">" (renderDevice device) = tags /\
  count_char dquote (renderDevice device) = quotes /\
  count_char "'" (renderDevice device) = 0%nat.
Proof.
  unfold renderDevice, has_icon. cbv zeta.
  destruct (String.eqb (DeviceData.type device) "switch");
    [| destruct (String.eqb (DeviceData.type device) "router");
       [| destruct (String.eqb (DeviceData.type device) "cloud")]];
    cbv beta iota; repeat split; count_markup.
Qed.

(** X6: a site is drawn as a [rect] element and a [text] element; no site
    name adds a tag or a quote to them. *)
Theorem renderSite_markup (site : SiteData.t) :
  count_char "<" (renderSite site) = 3%nat /\
  count_char ">" (renderSite site) = 3%nat /\
  count_char dquote (renderSite site) = 28%nat /\
  count_char "'" (renderSite site) = 0%nat.
Proof. unfold renderSite. cbv zeta. repeat split; count_markup. Qed.

(** X7: the title of the diagram is one [text] element, whatever the title
    and the font size are. *)
Theorem renderDiagramTitle_markup (title : string) (fontSize : float) :
  count_char "<" (renderDiagramTitle title fontSize) = 2%nat /\
  count_char ">" (renderDiagramTitle title fontSize) = 2%nat /\
  count_char dquote (renderDiagramTitle title fontSize) = 8%nat /\
  count_char "'" (renderDiagramTitle title fontSize) = 0%nat.
Proof. unfold renderDiagramTitle. repeat split; count_markup. Qed.

(** X8: a color is copied into its marker as it is, twice (into the [id],
    less its first '#', and into [fill]), without escaping: every angle
    bracket and every quote of the color is in the marker twice. *)
Theorem createArrowMarker_verbatim (color : string) :
  count_char "<" (createArrowMarker color) = (3 + 2 * count_char "<" color)%nat /\
  count_char ">" (createArrowMarker color) = (3 + 2 * count_char ">" color)%nat /\
  count_char dquote (createArrowMarker color) = (20 + 2 * count_char dquote color)%nat.
Proof.
  unfold createArrowMarker, getArrowMarkerId.
  repeat split; rewrite !count_char_app, count_char_remove_first by discriminate;
    match goal with
    | |- context [count_char ?c color] => generalize (count_char c color)
    end; intros n; vm_compute count_char; lia.
Qed.

(* ===================================================================== *)
(** * The date of the rendering *)
(* ===================================================================== *)

Section Timestamp.

Lemma replace_first_app (c : ascii) (t a b : string) :
  count_char c a = 0%nat ->
  replace_first c t (a +:+ String c b) = a +:+ t +:+ b.
Proof.
  induction a as [| x a IH]; intros H.
  - change ("" +:+ String c b) with (String c b). cbn [replace_first].
    now rewrite Ascii.eqb_refl.
  - rewrite !append_cons. cbn [replace_first]. cbn [count_char] in H.
    destruct (Ascii.eqb x c); [discriminate H |].
    now rewrite IH.
Qed.

Lemma drop_line_none (s : string) :
  count_char "010" s = 0%nat -> count_char "013" s = 0%nat -> drop_line s = "".
Proof.
  induction s as [| a s IH]; [reflexivity |]. simpl. unfold is_line_terminator.
  destruct (Ascii.eqb a "010"); [discriminate |].
  destruct (Ascii.eqb a "013"); [discriminate |]. exact IH.
Qed.

Lemma strip_from_dot_app (a f : string) :
  count_char "." a = 0%nat -> f <> "" ->
  count_char "010" f = 0%nat -> count_char "013" f = 0%nat ->
  strip_from_dot (a +:+ String "." f) = a.
Proof.
  intros Ha Hf H10 H13. induction a as [| x a IH].
  - destruct f as [| b f]; [congruence |].
    change ("" +:+ String "." (String b f)) with (String "." (String b f)).
    cbn [strip_from_dot]. rewrite Ascii.eqb_refl.
    rewrite (drop_line_none (String b f) H10 H13).
    cbn [count_char] in H10, H13. unfold is_line_terminator.
    destruct (Ascii.eqb b "010"); [discriminate H10 |].
    destruct (Ascii.eqb b "013"); [discriminate H13 |]. reflexivity.
  - cbn [count_char] in Ha. rewrite append_cons. cbn [strip_from_dot].
    destruct (Ascii.eqb x "."); [discriminate Ha |].
    now rewrite IH.
Qed.

End Timestamp.

(** X9: of a clock reading [date T time . fraction], as [toISOString] gives
    it, the date, a space and the time are shown: the 'T' is replaced by a
    space, and the fraction of the second and the time zone are dropped.
    The text is anchored 8 units from the right and lower edges. *)
Theorem renderDate_seconds (rd : RenderData.t) (date time fraction : string) :
  count_char "T" date = 0%nat ->
  count_char "." date = 0%nat -> count_char "." time = 0%nat ->
  fraction <> "" ->
  count_char "010" fraction = 0%nat -> count_char "013" fraction = 0%nat ->
  renderDate rd (date +:+ "T" +:+ time +:+ "." +:+ fraction) =
  q "<text x='" +:+ toString (RenderData.width rd - 8) +:+ q "' y='" +:+
  toString (RenderData.height rd - 8) +:+
  q "' text-anchor='end' font-size='12' fill='#000000' stroke='none'>" +:+
  xmlescape (date +:+ " " +:+ time) +:+ "</text>".
Proof.
  intros HT Hd Ht Hf H10 H13. unfold renderDate. cbv zeta.
  change ("T" +:+ time +:+ "." +:+ fraction) with (String "T" (time +:+ String "." fraction)).
  rewrite (replace_first_app "T" " " date _ HT).
  change (" " +:+ time +:+ String "." fraction) with (String " " (time +:+ String "." fraction)).
  replace (date +:+ String " " (time +:+ String "." fraction))
    with ((date +:+ " " +:+ time) +:+ String "." fraction)
    by (now rewrite !append_assoc).
  rewrite strip_from_dot_app; try assumption; [reflexivity |].
  rewrite !count_char_app, Hd, Ht. reflexivity.
Qed.

(** The clock reading of the scenario. *)
Lemma renderDate_seconds_witness :
  Scenario.clock = "2023-05-01" +:+ "T" +:+ "12:34:56" +:+ "." +:+ "789Z" /\
  renderDate Scenario.data Scenario.clock =
  q "<text x='" +:+ toString (RenderData.width Scenario.data - 8) +:+ q "' y='" +:+
  toString (RenderData.height Scenario.data - 8) +:+
  q "' text-anchor='end' font-size='12' fill='#000000' stroke='none'>" +:+
  xmlescape ("2023-05-01" +:+ " " +:+ "12:34:56") +:+ "</text>".
Proof.
  split; [reflexivity |].
  apply (renderDate_seconds Scenario.data "2023-05-01" "12:34:56" "789Z");
    reflexivity || discriminate.
Defined.

(* ===================================================================== *)
(** * Markers and their identifiers *)
(* ===================================================================== *)

Section Markers.

Lemma append_inj_length (a b c d : string) :
  String.length a = String.length c -> a +:+ b = c +:+ d -> a = c /\ b = d.
Proof.
  revert c. induction a as [| x a IH]; intros [| y c] Hl H; try discriminate.
  - split; [reflexivity | exact H].
  - rewrite !append_cons in H. injection H as -> H. injection Hl as Hl.
    destruct (IH c Hl H) as [-> ->]. split; reflexivity.
Qed.

Lemma length_remove_first (c : ascii) (s : string) :
  (String.length (remove_first c s) + (if bool_decide (count_char c s = 0%nat) then 0 else 1)
   = String.length s)%nat.
Proof.
  induction s as [| a s IH]; [reflexivity |]. simpl.
  destruct (Ascii.eqb a c).
  - simpl. lia.
  - simpl. lia.
Qed.

(** Two colors with one marker definition are one color. *)
Lemma createArrowMarker_inj (c1 c2 : string) :
  createArrowMarker c1 = createArrowMarker c2 -> c1 = c2.
Proof.
  unfold createArrowMarker, getArrowMarkerId. intros H.
  rewrite !append_assoc in H.
  apply append_inj_length in H as [_ H]; [| reflexivity].
  apply append_inj_length in H as [_ H]; [| reflexivity].
  pose proof (f_equal String.length H) as Hl.
  rewrite !length_app in Hl.
  pose proof (length_remove_first "#" c1) as L1.
  pose proof (length_remove_first "#" c2) as L2.
  assert (String.length (remove_first "#" c1) = String.length (remove_first "#" c2)) as Hr.
  { destruct (bool_decide _) in L1; destruct (bool_decide _) in L2; lia. }
  apply append_inj_length in H as [_ H]; [| exact Hr].
  apply append_inj_length in H as [_ H]; [| reflexivity].
  apply append_inj_length in H as [H _]; [exact H |].
  rewrite Hr in Hl. lia.
Qed.

Lemma Set_add_map (f : string -> string) (s : list string) (x : string) :
  (forall a b, f a = f b -> a = b) ->
  Set_add (map f s) (f x) = map f (Set_add s x).
Proof.
  intros Hf. unfold Set_add.
  assert (f x ∈ map f s <-> x ∈ s) as Hiff.
  { rewrite !list_elem_of_In, in_map_iff. split.
    - intros (y & E & Hy). now rewrite <- (Hf _ _ E).
    - intros Hx. eauto. }
  case_bool_decide as H1; case_bool_decide as H2; try tauto.
  now rewrite map_app.
Qed.

(** The [Set] of the images of an array under a one-to-one function. *)
Lemma Set_of_map (f : string -> string) (l : list string) :
  (forall a b, f a = f b -> a = b) ->
  Set_of (map f l) = map f (Set_of l).
Proof.
  intros Hf. unfold Set_of. change (@nil string) with (map f []) at 1.
  generalize (@nil string). induction l as [| x l IH]; intros s; simpl; [reflexivity |].
  now rewrite Set_add_map, IH.
Qed.

Lemma render_defsElements_colors (rd : RenderData.t) :
  render_defsElements rd = map createArrowMarker (render_arrowColors rd).
Proof.
  unfold render_defsElements, render_arrowColors, connectionElements.
  induction (RenderData.connections rd) as [| c l IH]; [reflexivity |].
  simpl. now rewrite IH.
Qed.

Lemma render_arrowColors_In (rd : RenderData.t) (color : string) :
  In color (render_arrowColors rd) <->
  exists c, In c (RenderData.connections rd) /\
    (color = getStrokeColor (ConnectionData.outboundTraffic c) (RenderData.colors rd) \/
     color = getStrokeColor (ConnectionData.inboundTraffic c) (RenderData.colors rd)).
Proof.
  unfold render_arrowColors. rewrite in_flat_map. split.
  - intros (c & Hc & [<- | [<- | []]]); eauto.
  - intros (c & Hc & [-> | ->]); exists c; simpl; auto.
Qed.

(** The color of a traffic value is black or a text of the table that is
    not empty. *)
Lemma getStrokeColor_stored (traffic : float) (colors : ColorDefinition) :
  getStrokeColor traffic colors = "#000000" \/
  getStrokeColor traffic colors <> "" /\
  exists k, colors !! k = Some (getStrokeColor traffic colors).
Proof.
  unfold getStrokeColor. cbv zeta.
  destruct (lookupColor colors _) as [color |] eqn:E; [| now left].
  destruct (String.eqb_spec color "") as [-> | Hne]; [now left |].
  right. split; [exact Hne |].
  unfold lookupColor in E.
  destruct (match List.find _ _ with Some _ => _ | None => _ end) as [x |]; [| discriminate].
  destruct (integer_key x) as [k |]; [| discriminate]. eauto.
Qed.

Lemma NoDup_map_on (f : string -> string) (l : list string) :
  (forall a b, In a l -> In b l -> f a = f b -> a = b) ->
  List.NoDup l -> List.NoDup (map f l).
Proof.
  induction l as [| x l IH]; intros Hf Hl; [constructor |].
  inversion Hl as [| ? ? Hx Hl']; subst. simpl. constructor.
  - intros Hin. apply in_map_iff in Hin as (y & E & Hy).
    apply Hx. rewrite <- (Hf y x); simpl; auto.
  - apply IH; [| assumption]. intros a b Ha Hb. apply Hf; simpl; auto.
Qed.

End Markers.

(** The document around the marker definitions. *)
Lemma renderToSvg_defs (title : string) (width height : float)
    (elements defsElements : list string) :
  renderToSvg title width height elements defsElements =
  document_prologue width height +:+ "<defs>" +:+ document_icons +:+ join "
  " defsElements +:+ "
</defs>" +:+ "
<title>" +:+ xmlescape title +:+ "</title>
" +:+ join "
" elements +:+ "
</svg>".
Proof.
  unfold renderToSvg, document_prologue. cbv zeta. rewrite !append_assoc.
  do 4 (apply (f_equal2 String.append); [reflexivity |]).
  apply append_split3. vm_compute. reflexivity.
Qed.

(** C6: the [defs] block of the document is the icons, which hold no marker
    of a color, followed by the marker definitions joined in a row; the
    marker of the color of any arrow of any connection is one of these
    definitions, it is none of those before it and none of those after it,
    and every other definition is the marker of another color: exactly one
    marker is defined for the color, however many arrows have it. *)
Theorem marker_defined_once (rd : RenderData.t) (now : string)
    (c : ConnectionData.t) (t : float) :
  In c (RenderData.connections rd) ->
  t = ConnectionData.outboundTraffic c \/ t = ConnectionData.inboundTraffic c ->
  let color := getStrokeColor t (RenderData.colors rd) in
  let marker :=
    q "<marker id='arrow-" +:+ remove_first "#" color +:+
    q "' viewBox='0 0 10 10' refX='8' refY='5' markerWidth='6' markerHeight='6' markerUnits='strokeWidth' orient='auto-start-reverse' fill='" +:+
    color +:+ q "'><use xlink:href='#arrow-marker'/></marker>" in
  exists (before after : list string) (tail : string),
    render rd now =
      document_prologue (RenderData.width rd) (RenderData.height rd) +:+ "<defs>" +:+
      document_icons +:+ join "
  " (before ++ marker :: after) +:+ "
</defs>" +:+ tail /\
    ~ In marker before /\ ~ In marker after /\
    (forall d, In d (before ++ after) ->
       exists other, other <> color /\ In other (render_arrowColors rd) /\
                     d = createArrowMarker other) /\
    occurs (q "<marker id='arrow-") document_icons = false.
Proof.
  intros Hc Ht color marker.
  assert (Hm : marker = createArrowMarker color).
  { unfold marker, createArrowMarker, getArrowMarkerId. now rewrite !append_assoc. }
  assert (Hin : In color (Set_of (render_arrowColors rd))).
  { apply Set_of_In, render_arrowColors_In. exists c. split; [exact Hc |].
    unfold color. destruct Ht as [-> | ->]; auto. }
  destruct (in_split _ _ Hin) as (l1 & l2 & El).
  pose proof (Set_of_NoDup (render_arrowColors rd)) as Hnd. rewrite El in Hnd.
  apply NoDup_remove_2 in Hnd.
  assert (Hother : forall x, In x (l1 ++ l2) -> x <> color /\ In x (render_arrowColors rd)).
  { intros x Hx. split; [intros ->; contradiction |].
    apply Set_of_In. rewrite El. rewrite in_app_iff in *. simpl. tauto. }
  exists (map createArrowMarker l1), (map createArrowMarker l2).
  eexists. split; [| split; [| split; [| split]]].
  - unfold render. rewrite renderToSvg_defs.
    rewrite render_defsElements_colors, (Set_of_map _ _ createArrowMarker_inj), El, map_app.
    cbn [map]. rewrite <- Hm. reflexivity.
  - rewrite Hm, in_map_iff. intros (x & E & Hx). apply createArrowMarker_inj in E as ->.
    apply Hnd, in_app_iff. now left.
  - rewrite Hm, in_map_iff. intros (x & E & Hx). apply createArrowMarker_inj in E as ->.
    apply Hnd, in_app_iff. now right.
  - intros d Hd. rewrite <- map_app, in_map_iff in Hd. destruct Hd as (x & <- & Hx).
    exists x. destruct (Hother x Hx). auto.
  - vm_compute. reflexivity.
Qed.

(** Six arrows, four of them red, and three markers. *)
Lemma marker_defined_once_witness :
  (In Scenario.back_link (RenderData.connections Scenario.mixed) /\
   render_arrowColors Scenario.mixed =
     [ "#ff0000"; "#ff0000"; "#00ff00"; "#0000ff"; "#ff0000"; "#ff0000" ]) /\
  exists (before after : list string) (tail : string),
    render Scenario.mixed Scenario.clock =
      document_prologue 800 600 +:+ "<defs>" +:+ document_icons +:+ join "
  " (before ++ createArrowMarker "#ff0000" :: after) +:+ "
</defs>" +:+ tail /\
    ~ In (createArrowMarker "#ff0000") before /\ ~ In (createArrowMarker "#ff0000") after.
Proof.
  split.
  - split; [right; right; left; reflexivity | vm_compute; reflexivity].
  - destruct (marker_defined_once Scenario.mixed Scenario.clock Scenario.back_link
                (ConnectionData.outboundTraffic Scenario.back_link))
      as (before & after & tail & Hdoc & Hb & Ha & _).
    + right. right. left. reflexivity.
    + left. reflexivity.
    + exists before, after, tail. split; [exact Hdoc | split; [exact Hb | exact Ha]].
Defined.

(** X10: the marker definitions that [render] puts into the document are
    the markers of the distinct colors of the arrows, one for each color, in
    the order in which the colors are first used. *)
Theorem markers_of_distinct_colors (rd : RenderData.t) :
  Set_of (render_defsElements rd) = map createArrowMarker (Set_of (render_arrowColors rd)) /\
  List.NoDup (Set_of (render_arrowColors rd)) /\
  forall color, In color (Set_of (render_arrowColors rd)) <->
    exists c, In c (RenderData.connections rd) /\
      (color = getStrokeColor (ConnectionData.outboundTraffic c) (RenderData.colors rd) \/
       color = getStrokeColor (ConnectionData.inboundTraffic c) (RenderData.colors rd)).
Proof.
  split; [| split].
  - rewrite render_defsElements_colors. apply Set_of_map, createArrowMarker_inj.
  - apply Set_of_NoDup.
  - intros color. rewrite Set_of_In. apply render_arrowColors_In.
Qed.

(** X11: [getStrokeColor] never returns the empty text, and what it returns
    is black or one of the colors stored in the table. *)
Theorem getStrokeColor_from_table (traffic : float) (colors : ColorDefinition) :
  getStrokeColor traffic colors <> "" /\
  (getStrokeColor traffic colors = "#000000" \/
   exists k, colors !! k = Some (getStrokeColor traffic colors)).
Proof.
  destruct (getStrokeColor_stored traffic colors) as [E | [Hne Hk]].
  - rewrite E. split; [discriminate | now left].
  - split; [exact Hne | now right].
Qed.

(** X12: when every color of the table starts with '#' (or is empty), the
    markers defined in a document have pairwise distinct [id]s. *)
Theorem marker_ids_distinct (rd : RenderData.t) :
  (forall k v, RenderData.colors rd !! k = Some v -> v = "" \/ exists s, v = String "#" s) ->
  List.NoDup (map getArrowMarkerId (Set_of (render_arrowColors rd))).
Proof.
  intros Hhash.
  assert (forall color, In color (Set_of (render_arrowColors rd)) ->
                        exists s, color = String "#" s) as Hc.
  { intros color Hin. apply Set_of_In, render_arrowColors_In in Hin as (c & _ & Hin).
    assert (exists t, color = getStrokeColor t (RenderData.colors rd)) as [t ->]
      by (destruct Hin; eauto).
    destruct (getStrokeColor_stored t (RenderData.colors rd)) as [-> | [Hne [k Hk]]].
    - eexists. reflexivity.
    - destruct (Hhash k _ Hk) as [E | Hs]; [contradiction | exact Hs]. }
  apply NoDup_map_on; [| apply Set_of_NoDup].
  intros a b Ha Hb. destruct (Hc a Ha) as [sa ->], (Hc b Hb) as [sb ->].
  unfold getArrowMarkerId. cbn [remove_first]. rewrite Ascii.eqb_refl.
  intros E. apply append_inj_length in E as [_ ->]; reflexivity.
Qed.

(** A diagram with three colors, on the built-in table. *)
Lemma marker_ids_distinct_witness :
  map getArrowMarkerId (Set_of (render_arrowColors Scenario.mixed))
  = [ "arrow-ff0000"; "arrow-00ff00"; "arrow-0000ff" ] /\
  List.NoDup (map getArrowMarkerId (Set_of (render_arrowColors Scenario.mixed))).
Proof.
  split; [vm_compute; reflexivity |].
  apply (marker_ids_distinct Scenario.mixed).
  intros k v H. apply DEFAULT_COLORS_entries in H. right.
  repeat (destruct H as [H | H]; [injection H as <- <-; eexists; reflexivity |]).
  destruct H.
Defined.

(* ===================================================================== *)
(** * The geometry of a link *)
(* ===================================================================== *)

Section Magnitudes.

(** The sign asked of a rounding reaches its result only as its sign. *)
Lemma binary_round_aux_abs (s s' : bool) (m e : Z) (l : location) :
  SFabs (binary_round_aux prec emax s m e l) = SFabs (binary_round_aux prec emax s' m e l).
Proof.
  unfold binary_round_aux.
  destruct (shr_fexp prec emax m e l) as [r1 e1].
  destruct (shr_fexp prec emax _ e1 loc_Exact) as [r2 e2].
  destruct (shr_m r2); [reflexivity | | reflexivity].
  now destruct (e2 <=? emax - prec)%Z.
Qed.

Lemma binary_normalize_opp (m e : Z) :
  SFabs (binary_normalize prec emax (- m) e false) = SFabs (binary_normalize prec emax m e false).
Proof.
  destruct m as [| p | p]; [reflexivity | |]; unfold binary_normalize, Z.opp, binary_round;
    destruct (shl_align _ _ _) as [mz ez]; apply binary_round_aux_abs.
Qed.

Lemma SFabs_sub_swap (x y : spec_float) :
  SFabs (SFsub prec emax x y) = SFabs (SFsub prec emax y x).
Proof.
  destruct x as [[] | [] | | sx mx ex], y as [[] | [] | | sy my ey]; try reflexivity.
  unfold SFsub. rewrite (Z.min_comm ey ex).
  rewrite <- binary_normalize_opp. f_equal. f_equal. lia.
Qed.

(** [|a - b| = |b - a|], also when the difference is rounded, infinite or
    not a number. *)
Lemma abs_sub_swap (a b : float) : abs (a - b) = abs (b - a).
Proof.
  apply Prim2SF_inj. rewrite !abs_spec, !sub_spec. apply SFabs_sub_swap.
Qed.

Lemma SFmul_square (x y : spec_float) :
  SFabs x = SFabs y -> SFmul prec emax x x = SFmul prec emax y y.
Proof.
  destruct x as [[] | [] | | [] mx ex], y as [[] | [] | | [] my ey]; simpl;
    intros H; try discriminate H; try reflexivity; now injection H as -> ->.
Qed.

Lemma mul_square (a b : float) : abs a = abs b -> a * a = b * b.
Proof.
  intros H. apply Prim2SF_inj. rewrite !mul_spec. apply SFmul_square.
  rewrite <- !abs_spec. now rewrite H.
Qed.

Lemma SFabs_div (x y l : spec_float) :
  SFabs x = SFabs y -> SFabs (SFdiv prec emax x l) = SFabs (SFdiv prec emax y l).
Proof.
  destruct x as [[] | [] | | sx mx ex], y as [[] | [] | | sy my ey];
    intros H; try discriminate H; try reflexivity;
    try (destruct l as [[] | [] | | [] ml el]; reflexivity).
  cbn [SFabs] in H. injection H as -> ->.
  destruct l as [sl | sl | | sl ml el]; try reflexivity.
  unfold SFdiv. destruct (SFdiv_core_binary _ _ _ _ _ _) as [[mz ez] lz].
  apply binary_round_aux_abs.
Qed.

Lemma abs_div (a b l : float) : abs a = abs b -> abs (a / l) = abs (b / l).
Proof.
  intros H. apply Prim2SF_inj. rewrite !abs_spec, !div_spec. apply SFabs_div.
  rewrite <- !abs_spec. now rewrite H.
Qed.

(** The difference of a number with itself is +0, or not a number. *)
Lemma abs_sub_diag (x : float) : (48 <? abs (x - x)) = false.
Proof.
  rewrite ltb_spec, abs_spec, sub_spec.
  change (Prim2SF 48) with (S754_finite false 6755399441055744 (-47)).
  unfold SF64sub.
  destruct (Prim2SF x) as [[] | [] | | s m e]; try reflexivity.
  unfold SFsub. rewrite Z.sub_diag. reflexivity.
Qed.

End Magnitudes.

(** X13: a link and the same link declared from its other end have the same
    spans, the same length, the same answer to the overlap test and the same
    [factor]: whether the labels are moved, and how far, does not depend on
    the end from which the link is declared. *)
Theorem reversed_link_geometry (c c' : ConnectionData.t) :
  ConnectionData.from_x c' = ConnectionData.to_x c ->
  ConnectionData.from_y c' = ConnectionData.to_y c ->
  ConnectionData.to_x c' = ConnectionData.from_x c ->
  ConnectionData.to_y c' = ConnectionData.from_y c ->
  ConnectionData.speed c' = ConnectionData.speed c ->
  Link.spanX c' = Link.spanX c /\ Link.spanY c' = Link.spanY c /\
  Link.length c' = Link.length c /\ Link.overlap c' = Link.overlap c /\
  Link.factor c' = Link.factor c.
Proof.
  intros Hfx Hfy Htx Hty Hs.
  assert (Link.spanX c' = Link.spanX c) as HX.
  { unfold Link.spanX. rewrite Hfx, Htx. apply abs_sub_swap. }
  assert (Link.spanY c' = Link.spanY c) as HY.
  { unfold Link.spanY. rewrite Hfy, Hty. apply abs_sub_swap. }
  assert (Link.length c' = Link.length c) as HL.
  { unfold Link.length. rewrite Hfx, Htx, Hfy, Hty.
    rewrite (mul_square _ _ (abs_sub_swap (ConnectionData.from_x c) (ConnectionData.to_x c))).
    rewrite (mul_square _ _ (abs_sub_swap (ConnectionData.from_y c) (ConnectionData.to_y c))).
    reflexivity. }
  repeat split; try assumption.
  - unfold Link.overlap. now rewrite HX, HY.
  - unfold Link.factor, Link.strokeWidth, Link.normalizedVectorY. rewrite Hs, HL, Hfy, Hty.
    now rewrite (abs_div _ _ (Link.length c)
                   (abs_sub_swap (ConnectionData.from_y c) (ConnectionData.to_y c))).
Qed.

(** The link of the scenario as the switch reports it. *)
Lemma reversed_link_geometry_witness :
  Link.spanX Scenario.back_link = Link.spanX Scenario.link /\
  Link.spanY Scenario.back_link = Link.spanY Scenario.link /\
  Link.length Scenario.back_link = Link.length Scenario.link /\
  Link.overlap Scenario.back_link = Link.overlap Scenario.link /\
  Link.factor Scenario.back_link = Link.factor Scenario.link.
Proof. apply (reversed_link_geometry Scenario.link Scenario.back_link); reflexivity. Defined.

(** X14: the labels of a link between two points of one height are never
    moved by the overlap rule, whatever the coordinates are: both stand at
    the distance [72 / 2 + 8 + strokeWidth * 6] from the middle of the link,
    the outbound one against the unit direction vector and the inbound one
    along it, in both coordinates. *)
Theorem horizontal_link_labels (c : ConnectionData.t) (colors : ColorDefinition) :
  ConnectionData.from_y c = ConnectionData.to_y c ->
  let x1 := ConnectionData.from_x c in
  let y1 := ConnectionData.from_y c in
  let x2 := ConnectionData.to_x c in
  let y2 := ConnectionData.to_y c in
  let mx := x1 + (x2 - x1) / 2 in
  let my := y1 + (y2 - y1) / 2 in
  let length := sqrt ((x2 - x1) * (x2 - x1) + (y2 - y1) * (y2 - y1)) in
  let ux := (x2 - x1) / length in
  let uy := (y2 - y1) / length in
  let distance := 72 / 2 + 8 + getStrokeWidth (ConnectionData.speed c) * 6 in
  Link.overlap c = false /\
  Link.outboundTrafficLabelX c = mx - ux * distance /\
  Link.outboundTrafficLabelY c = my - uy * distance /\
  Link.inboundTrafficLabelX c = mx + ux * distance /\
  Link.inboundTrafficLabelY c = my + uy * distance /\
  labelElements (renderConnection c colors) =
    [ renderTraffic (mx - ux * distance) (my - uy * distance)
        (ConnectionData.outboundTraffic c) 12;
      renderTraffic (mx + ux * distance) (my + uy * distance)
        (ConnectionData.inboundTraffic c) 12 ].
Proof.
  intros H. cbv zeta.
  assert (Link.overlap c = false) as Ho.
  { unfold Link.overlap, Link.spanY. rewrite H, abs_sub_diag. reflexivity. }
  unfold renderConnection; cbn [labelElements].
  unfold Link.outboundTrafficLabelX, Link.outboundTrafficLabelY,
    Link.inboundTrafficLabelX, Link.inboundTrafficLabelY. rewrite Ho.
  unfold Link.trafficTextWidth, Link.middleX, Link.middleY,
    Link.normalizedVectorX, Link.normalizedVectorY, Link.length, Link.strokeWidth.
  auto 7.
Qed.

(** A link of 300 units from (100,100) to (400,100) at 1G: the labels stand
    56 units from its middle (250,100). *)
Lemma horizontal_link_labels_witness :
  ConnectionData.from_y Scenario.level_link = ConnectionData.to_y Scenario.level_link /\
  Link.overlap Scenario.level_link = false /\
  labelElements (renderConnection Scenario.level_link DEFAULT_COLORS) =
    [ renderTraffic 194 100 30000000 12; renderTraffic 306 100 2000000 12 ].
Proof.
  split; [reflexivity |].
  destruct (horizontal_link_labels Scenario.level_link DEFAULT_COLORS eq_refl)
    as (Ho & _ & _ & _ & _ & Hl).
  split; [exact Ho | exact Hl].
Defined.

(* ===================================================================== *)
(** * The tags of the document *)
(* ===================================================================== *)

Section Tags.

Lemma list_sum_cons (x : nat) (l : list nat) : list_sum (x :: l) = (x + list_sum l)%nat.
Proof. reflexivity. Qed.

Variable rd : RenderData.t.

(** No color of the table holds an opening angle bracket. *)
Hypothesis colors_plain :
  forall k v, RenderData.colors rd !! k = Some v -> count_char "<" v = 0%nat.

Lemma getStrokeColor_no_tag (t : float) :
  count_char "<" (getStrokeColor t (RenderData.colors rd)) = 0%nat.
Proof.
  destruct (getStrokeColor_stored t (RenderData.colors rd)) as [-> | [_ [k Hk]]];
    [reflexivity | exact (colors_plain k _ Hk)].
Qed.

Lemma arrowPath_tags (x y mx my : float) (t : float) (w : float) :
  count_char "<" (arrowPath x y mx my (getStrokeColor t (RenderData.colors rd)) w
                    (getArrowMarkerId (getStrokeColor t (RenderData.colors rd)))) = 1%nat.
Proof.
  unfold arrowPath, getArrowMarkerId.
  repeat rewrite count_char_app.
  rewrite count_char_remove_first by discriminate.
  repeat rewrite count_char_toString by reflexivity.
  rewrite getStrokeColor_no_tag. reflexivity.
Qed.

Lemma connection_tags (l : list ConnectionData.t) :
  list_sum (map (count_char "<")
    (flat_map arrowElements (map (fun c => renderConnection c (RenderData.colors rd)) l)))
  = (2 * List.length l)%nat /\
  list_sum (map (count_char "<")
    (flat_map labelElements (map (fun c => renderConnection c (RenderData.colors rd)) l)))
  = (6 * List.length l)%nat.
Proof.
  induction l as [| c l [IH1 IH2]]; [split; reflexivity |].
  cbn [map flat_map]. rewrite !map_app, !list_sum_app, IH1, IH2.
  unfold renderConnection. cbn [arrowElements labelElements map list_sum List.length].
  rewrite !arrowPath_tags.
  assert (forall x y t, count_char "<" (renderTraffic x y t 12) = 3%nat) as Hl
    by (intros; unfold renderTraffic; cbv zeta; count_markup).
  rewrite !Hl. simpl list_sum. lia.
Qed.

Lemma marker_tags (l : list string) :
  (forall color, In color l -> count_char "<" color = 0%nat) ->
  list_sum (map (count_char "<") (map createArrowMarker l)) = (3 * List.length l)%nat.
Proof.
  induction l as [| color l IH]; intros H; [reflexivity |].
  cbn [map List.length]. rewrite list_sum_cons, IH by (intros; apply H; now right).
  unfold createArrowMarker, getArrowMarkerId.
  repeat rewrite count_char_app. rewrite count_char_remove_first by discriminate.
  rewrite (H color) by now left.
  change (count_char "<" (q "<marker id='")) with 1%nat.
  change (count_char "<" "arrow-") with 0%nat.
  change (count_char "<" (q "'><use xlink:href='#arrow-marker'/></marker>")) with 2%nat.
  match goal with
  | |- context [count_char "<" (q ?lit)] => change (count_char "<" (q lit)) with 0%nat
  end.
  lia.
Qed.

Lemma site_tags (l : list SiteData.t) :
  list_sum (map (count_char "<") (map renderSite l)) = (3 * List.length l)%nat.
Proof.
  induction l as [| s l IH]; [reflexivity |].
  cbn [map List.length]. rewrite list_sum_cons, IH.
  assert (count_char "<" (renderSite s) = 3%nat) as ->
    by (unfold renderSite; cbv zeta; count_markup).
  lia.
Qed.

Lemma device_tags (l : list DeviceData.t) :
  list_sum (map (count_char "<") (map renderDevice l))
  = list_sum (map (fun d => if has_icon (DeviceData.type d) then 3 else 2)%nat l).
Proof.
  induction l as [| d l IH]; [reflexivity |].
  cbn [map]. rewrite !list_sum_cons, IH. f_equal.
  unfold renderDevice, has_icon. cbv zeta.
  destruct (String.eqb (DeviceData.type d) "switch");
    [| destruct (String.eqb (DeviceData.type d) "router");
       [| destruct (String.eqb (DeviceData.type d) "cloud")]];
    cbv beta iota; count_markup.
Qed.

Lemma elements_tags (now : string) :
  list_sum (map (count_char "<") (render_elements rd now))
  = (5 + 3 * List.length (RenderData.sites rd) + 8 * List.length (RenderData.connections rd)
     + list_sum (map (fun d => if has_icon (DeviceData.type d) then 3 else 2)%nat
                   (RenderData.devices rd)))%nat.
Proof.
  unfold render_elements, render_arrowElements, render_labelElements, connectionElements.
  cbn [app map]. rewrite !list_sum_cons, !map_app, !list_sum_app.
  destruct (connection_tags (RenderData.connections rd)) as [-> ->].
  rewrite site_tags, device_tags. cbn [map]. rewrite !list_sum_cons. simpl list_sum.
  assert (count_char "<" (renderBackground (RenderData.width rd) (RenderData.height rd)) = 1%nat)
    as -> by (unfold renderBackground; count_markup).
  assert (count_char "<" (renderDiagramTitle (RenderData.title rd) 24) = 2%nat)
    as -> by (unfold renderDiagramTitle; count_markup).
  assert (count_char "<" (renderDate rd now) = 2%nat)
    as -> by (unfold renderDate; cbv zeta; count_markup).
  lia.
Qed.

Lemma defs_tags :
  list_sum (map (count_char "<") (Set_of (render_defsElements rd)))
  = (3 * List.length (Set_of (render_arrowColors rd)))%nat.
Proof.
  rewrite render_defsElements_colors, (Set_of_map _ _ createArrowMarker_inj).
  apply marker_tags. intros color Hin.
  apply Set_of_In, render_arrowColors_In in Hin as (c & _ & [-> | ->]);
    apply getStrokeColor_no_tag.
Qed.

Lemma renderToSvg_tags (title : string) (width height : float)
    (elements defsElements : list string) :
  count_char "<" (renderToSvg title width height elements defsElements)
  = (22 + list_sum (map (count_char "<") defsElements)
     + list_sum (map (count_char "<") elements))%nat.
Proof.
  unfold renderToSvg. cbv zeta.
  repeat rewrite count_char_app.
  repeat rewrite count_char_toString by reflexivity.
  rewrite count_char_xmlescape by (simpl; tauto).
  rewrite !count_char_join by reflexivity.
  generalize (list_sum (map (count_char "<") defsElements)).
  generalize (list_sum (map (count_char "<") elements)).
  intros n m. vm_compute count_char. lia.
Qed.

End Tags.

(** X15: when no color of the table holds an opening angle bracket, the
    number of tags of the document is fixed by the numbers of sites,
    connections, devices with and without an icon, and distinct arrow colors:
    no title, site name, device name or clock reading adds a tag. *)
Theorem document_tags (rd : RenderData.t) (now : string) :
  (forall k v, RenderData.colors rd !! k = Some v -> count_char "<" v = 0%nat) ->
  count_char "<" (render rd now) =
  (27 + 3 * List.length (Set_of (render_arrowColors rd))
   + 3 * List.length (RenderData.sites rd)
   + 8 * List.length (RenderData.connections rd)
   + list_sum (map (fun d => if has_icon (DeviceData.type d) then 3 else 2)%nat
                 (RenderData.devices rd)))%nat.
Proof.
  intros H. unfold render.
  rewrite renderToSvg_tags, (defs_tags rd H), (elements_tags rd H). lia.
Qed.

(** The scenario: two devices with icons, one link, one color. *)
Lemma document_tags_witness :
  count_char "<" (render Scenario.data Scenario.clock) = 44%nat.
Proof.
  apply (document_tags Scenario.data Scenario.clock).
  intros k v H. apply DEFAULT_COLORS_entries in H.
  repeat (destruct H as [H | H]; [injection H as <- <-; reflexivity |]).
  destruct H.
Defined.
